(** * RBD mirror store (metrics/internal/cache/rbd-mirror.go)

    A shallow embedding of the [RBDMirrorStore] of the ocs-operator metrics
    exporter, and the properties of its write path: [WithRBDCommandInput],
    [rbdImageStatus], [Add], [Update], [Delete], [Replace] and [Resync].

    The Go code talks to three collaborators that are not part of the
    package: the Kubernetes client (secrets and configmaps), [os/exec] (the
    [rbd] command) and [encoding/json].  They are the methods of the class
    [External]; every definition and theorem is parametric in an instance.

    Modelling boundaries:
    - goroutines are not modelled: every operation runs to completion.  The
      mutex is visible as [EvLock]/[EvUnlock] entries of the trace;
    - interface values that hold a nil pointer are not part of [Obj];
    - [CreateCephBlockPoolListWatch], two closures around the rook client,
      is not modelled.

    After the store come the bootstrap of the process ([writeCephConfig],
    [NewRBDMirrorStore]) on a file system that is the class [FileSystem],
    the histories of calls on a store, the [main] of the deployment tool,
    and [ensureToolsDeployment] of controllers/storagecluster/cephtoolbox.go,
    each over a class for the code that is not among the sources. *)

From stdpp Require Import gmap strings list fin_maps.
From Stdlib Require Import ZArith.

#[local] Set Warnings "-clear-no-such-hyp".

Local Open Scope string_scope.
Local Open Scope list_scope.

(** ** Data model *)

(** [types.UID] is a Go string type. *)
Abbreviation UID := string (only parsing).

Record RBDMirrorImageStatusStates := {
  Unknown : Z;
  Error : Z;
  Syncing : Z;
  StartingReplay : Z;
  Replaying : Z;
  StoppingReplay : Z;
  Stopped : Z
}.

Record RBDMirrorPoolStatusSummary := {
  Health : string;
  DaemonHealth : string;
  ImageHealth : string;
  States : RBDMirrorImageStatusStates
}.

(** Field names that Go repeats in several structs carry the struct's
    initials here, as Rocq projections share one name space. *)
Record RBDMirrorDaemonStatus := {
  ds_ServiceID : string;
  ds_InstanceID : string;
  ds_ClientID : string;
  ds_Hostname : string;
  ds_CephVersion : string;
  ds_Leader : bool;
  ds_Health : string
}.

Record RBDMirrorDaemonService := {
  dsv_ServiceID : string;
  dsv_InstanceID : string;
  dsv_DaemonID : string;
  dsv_Hostname : string
}.

Record RBDMirrorPeerSite := {
  ps_SiteName : string;
  ps_MirrorUuids : string;
  ps_State : string;
  ps_Description : string;
  ps_LastUpdate : string
}.

Record RBDMirrorImageStatus := {
  is_Name : string;
  is_GlobalID : string;
  is_State : string;
  is_Description : string;
  is_DaemonService : RBDMirrorDaemonService;
  is_LastUpdate : string;
  is_PeerSites : list RBDMirrorPeerSite
}.

Record RBDMirrorStatusVerbose := {
  Summary : RBDMirrorPoolStatusSummary;
  Daemons : list RBDMirrorDaemonStatus;
  Images : list RBDMirrorImageStatus
}.

Record RBDMirrorPoolStatusVerbose := {
  PoolName : string;
  PoolNamespace : string;
  MirrorStatus : RBDMirrorStatusVerbose
}.

(** The zero value of [RBDMirrorStatusVerbose] ([var x RBDMirrorStatusVerbose]). *)
Definition zeroStatus : RBDMirrorStatusVerbose :=
  {| Summary := {| Health := ""; DaemonHealth := ""; ImageHealth := "";
                   States := {| Unknown := 0; Error := 0; Syncing := 0;
                                StartingReplay := 0; Replaying := 0;
                                StoppingReplay := 0; Stopped := 0 |} |};
     Daemons := [];
     Images := [] |}.

Record csiClusterConfig := {
  ClusterID : string;
  Monitors : list string
}.

(** [type rbdCommandInput struct { monitor, id, key string }].  The type
    carries a [T] because the store has a field of the same name. *)
Record rbdCommandInputT := {
  monitor : string;
  id : string;
  key : string
}.

(** ** Errors

    The Go code builds its errors with [fmt.Errorf] and [errors.New]; there
    is one constructor per place that makes one, holding the values the
    message is formatted from.  The names are those of the specification's
    taxonomy where it has one. *)
Inductive error : Type :=
| Foreign (msg : string)
    (* an error made outside the package: client-go, os/exec, encoding/json *)
| NotObject
    (* meta.Accessor: the value has no object metadata (TypeMismatch) *)
| UnexpectedType
    (* Add: "unexpected object of type %T" (TypeMismatch) *)
| NotAllowedNamespace (namespace : string)
| SecretLookupError (namespace : string) (cause : error)
| SecretFieldMissing (namespace : string)
| ConfigLookupError (namespace : string) (cause : error)
| ConfigFieldMissing (namespace : string)
| ConfigParseError (namespace : string) (cause : error)
| NoClusterConfig (namespace : string)
| NoMonitors (namespace : string)
| IncompleteCredentials
    (* rbdImageStatus: "RBD command input not specified" *)
| RbdCommandInputError (namespace name : string) (cause : error)
    (* Add: "rbd command error for pool %s/%s : %v" *)
| RbdCommandError (cause : error).
    (* Add: "rbd command error: %v" *)

(** A Go call either returns or panics. *)
Inductive outcome (A : Type) : Type :=
| Done (a : A)
| Panic.
Arguments Done {A} a.
Arguments Panic {A}.

(** ** Kubernetes objects

    Modelled from the spec: the pool resource ([cephv1.CephBlockPool]) is
    declared in rook and not in this repository; the event payload is
    [{Name, Namespace, UID, Spec.Mirroring.Enabled}]. *)
Record ObjectMeta := {
  Name : string;
  Namespace : string;
  GetUID : UID
}.

Record MirroringSpec := { Enabled : bool }.

Record PoolSpec := { Mirroring : MirroringSpec }.

Record CephBlockPool := {
  Meta : ObjectMeta;
  Spec : PoolSpec
}.

(** The values an [interface{}] argument can hold, as far as the two tests
    the code makes on it ([meta.Accessor] and the type assertion to
    [*cephv1.CephBlockPool]) can tell them apart. *)
Inductive Obj : Type :=
| ObjCephBlockPool (pool : CephBlockPool)
| ObjOther (meta : ObjectMeta)   (* another API object, a Pod for one *)
| ObjNoMeta.                     (* no metadata: cache.DeletedFinalStateUnknown, a string *)

(** [meta.Accessor]. *)
Definition Accessor (obj : Obj) : error + ObjectMeta :=
  match obj with
  | ObjCephBlockPool pool => inr (Meta pool)
  | ObjOther meta => inr meta
  | ObjNoMeta => inl NotObject
  end.

Record Secret := { secret_Data : gmap string string }.
Record ConfigMap := { configmap_Data : gmap string string }.

(** ** The trace

    A ghost record of what an operation does besides computing its result. *)
Inductive LogMsg : Type :=
| LogSkipDisabled (namespace name : string)
| LogInitFailed (namespace name : string) (err : error)
| LogRbdError (err : error)
| LogResyncStarted
| LogResyncEnded.

Inductive Event : Type :=
| EvLock
| EvUnlock
| EvStoreSet (uid : UID)
| EvStoreDelete (uid : UID)
| EvStoreReset
| EvSecretsGet (namespace name : string)
| EvConfigMapsGet (namespace name : string)
| EvExec (command : string) (args : list string)
| EvInfo (msg : LogMsg)
| EvError (msg : LogMsg).

(** The calls that leave the process. *)
Definition is_external (ev : Event) : bool :=
  match ev with
  | EvSecretsGet _ _ | EvConfigMapsGet _ _ | EvExec _ _ => true
  | _ => false
  end.

(** The calls to the Kubernetes API. *)
Definition is_lookup (ev : Event) : bool :=
  match ev with
  | EvSecretsGet _ _ | EvConfigMapsGet _ _ => true
  | _ => false
  end.

Definition is_exec (ev : Event) : bool :=
  match ev with
  | EvExec _ _ => true
  | _ => false
  end.

(** Every change of the map happens with the mutex held: [held] is the state
    of the mutex before the first event. *)
Fixpoint well_locked (held : bool) (t : list Event) : bool :=
  match t with
  | [] => true
  | EvLock :: t => negb held && well_locked true t
  | EvUnlock :: t => held && well_locked false t
  | (EvStoreSet _ | EvStoreDelete _ | EvStoreReset) :: t => held && well_locked held t
  | _ :: t => well_locked held t
  end.

(** ** The collaborators *)
Class External (World : Type) := {
  (* kubeclient.CoreV1().Secrets(namespace).Get(ctx, name, opts) *)
  SecretsGet : string → string → World → (error + Secret) * World;
  (* kubeclient.CoreV1().ConfigMaps(namespace).Get(ctx, name, opts) *)
  ConfigMapsGet : string → string → World → (error + ConfigMap) * World;
  (* exec.Command(command, args...).CombinedOutput() *)
  CombinedOutput : string → list string → World → (string * option error) * World;
  (* json.Unmarshal(data, &clusterConfig) *)
  UnmarshalClusterConfig : string → list csiClusterConfig * option error;
  (* json.Unmarshal(cmd, &rbdMirrorStatusVerbose) *)
  UnmarshalStatus : string → RBDMirrorStatusVerbose * option error
}.

Record Env (World : Type) := {
  world : World;
  trace : list Event
}.
Arguments world {World} _.
Arguments trace {World} _.

(** [RBDMirrorStore].  [kubeclient] and the process environment are the
    [world] of [env]; [Mutex] shows in the trace. *)
Record RBDMirrorStore (World : Type) := {
  Store : gmap UID RBDMirrorPoolStatusVerbose;
  rbdCommandInput : gmap string rbdCommandInputT;
  allowedNamespaces : list string;
  env : Env World
}.
Arguments Store {World} _.
Arguments rbdCommandInput {World} _.
Arguments allowedNamespaces {World} _.
Arguments env {World} _.

Section Model.
Context {World : Type} `{External World}.

(** *** State updates *)

Definition emit (ev : Event) (e : Env World) : Env World :=
  {| world := world e; trace := trace e ++ [ev] |}.

Definition set_env (e : Env World) (s : RBDMirrorStore World) : RBDMirrorStore World :=
  {| Store := Store s; rbdCommandInput := rbdCommandInput s;
     allowedNamespaces := allowedNamespaces s; env := e |}.

Definition set_Store (m : gmap UID RBDMirrorPoolStatusVerbose)
    (s : RBDMirrorStore World) : RBDMirrorStore World :=
  {| Store := m; rbdCommandInput := rbdCommandInput s;
     allowedNamespaces := allowedNamespaces s; env := env s |}.

Definition set_rbdCommandInput (m : gmap string rbdCommandInputT)
    (s : RBDMirrorStore World) : RBDMirrorStore World :=
  {| Store := Store s; rbdCommandInput := m;
     allowedNamespaces := allowedNamespaces s; env := env s |}.

(** [emit] on the store's environment. *)
Definition note (ev : Event) (s : RBDMirrorStore World) : RBDMirrorStore World :=
  set_env (emit ev (env s)) s.

(** *** Calls to the collaborators, recorded in the trace *)

Definition secretsGet (namespace name : string) (e : Env World)
    : (error + Secret) * Env World :=
  let '(r, w) := SecretsGet namespace name (world e) in
  (r, {| world := w; trace := trace e ++ [EvSecretsGet namespace name] |}).

Definition configMapsGet (namespace name : string) (e : Env World)
    : (error + ConfigMap) * Env World :=
  let '(r, w) := ConfigMapsGet namespace name (world e) in
  (r, {| world := w; trace := trace e ++ [EvConfigMapsGet namespace name] |}).

(** [execCommand], lines 359-362. *)
Definition execCommand (command : string) (args : list string) (e : Env World)
    : (string * option error) * Env World :=
  let '(r, w) := CombinedOutput command args (world e) in
  (r, {| world := w; trace := trace e ++ [EvExec command args] |}).

(** *** The store's methods *)

(** The loop over [s.allowedNamespaces] at the head of
    [WithRBDCommandInput] (lines 148-154): the value of [allow] after it. *)
Fixpoint allowed (items : list string) (namespace : string) : bool :=
  match items with
  | [] => false
  | item :: rest => if decide (item = namespace) then true else allowed rest namespace
  end.

(** [WithRBDCommandInput], lines 147-199.  The indexings [clusterConfig[0]]
    and [Monitors[0]] come after the two [len] tests, and are the heads of
    the lists here. *)
Definition WithRBDCommandInput (namespace : string) (s : RBDMirrorStore World)
    : option error * RBDMirrorStore World :=
  if negb (allowed (allowedNamespaces s) namespace) then
    (Some (NotAllowedNamespace namespace), s)
  else
    let '(r, e1) := secretsGet namespace "rook-ceph-mon" (env s) in
    match r with
    | inl err => (Some (SecretLookupError namespace err), set_env e1 s)
    | inr secret =>
      match secret_Data secret !! "ceph-secret" with
      | None => (Some (SecretFieldMissing namespace), set_env e1 s)
      | Some key =>
        let id := "admin" in
        let '(r, e2) := configMapsGet namespace "rook-ceph-csi-config" e1 in
        match r with
        | inl err => (Some (ConfigLookupError namespace err), set_env e2 s)
        | inr configmap =>
          match configmap_Data configmap !! "csi-cluster-config-json" with
          | None => (Some (ConfigFieldMissing namespace), set_env e2 s)
          | Some data =>
            match UnmarshalClusterConfig data with
            | (_, Some err) => (Some (ConfigParseError namespace err), set_env e2 s)
            | (clusterConfig, None) =>
              match clusterConfig with
              | [] => (Some (NoClusterConfig namespace), set_env e2 s)
              | clusterConfig0 :: _ =>
                match Monitors clusterConfig0 with
                | [] => (Some (NoMonitors namespace), set_env e2 s)
                | monitors0 :: _ =>
                  let input := {| monitor := monitors0; id := id; key := key |} in
                  (None,
                   set_rbdCommandInput (<[namespace := input]> (rbdCommandInput s))
                     (set_env e2 s))
                end
              end
            end
          end
        end
      end
    end.

(** The argument vector of the [rbd] call. *)
Definition rbdArgs (in_ : rbdCommandInputT) (poolName : string) : list string :=
  ["mirror"; "pool"; "status"; poolName; "--verbose"; "--format"; "json";
   "-m"; monitor in_; "--id"; id in_; "--key"; key in_; "--debug-rbd"; "0"].

(** [rbdImageStatus], lines 340-357.  It has no access to the store. *)
Definition rbdImageStatus (in_ : rbdCommandInputT) (poolName : string) (e : Env World)
    : (RBDMirrorStatusVerbose * option error) * Env World :=
  if decide (monitor in_ = "" ∧ id in_ = "" ∧ key in_ = "") then
    ((zeroStatus, Some IncompleteCredentials), e)
  else
    let args := rbdArgs in_ poolName in
    let '((cmd, err), e1) := execCommand "rbd" args e in
    match err with
    | Some err => ((zeroStatus, Some err), e1)
    | None => (UnmarshalStatus cmd, e1)
    end.

(** [Add], lines 201-240.  The deferred [Unlock] runs after the write. *)
Definition Add (obj : Obj) (s : RBDMirrorStore World)
    : outcome (option error) * RBDMirrorStore World :=
  match Accessor obj with
  | inl err => (Done (Some err), s)
  | inr o =>
    match obj with
    | ObjCephBlockPool pool =>
      if negb (Enabled (Mirroring (Spec pool))) then
        (Done None,
         note (EvInfo (LogSkipDisabled (Namespace (Meta pool)) (Name (Meta pool)))) s)
      else
        let '(err, s1) :=
          match rbdCommandInput s !! Namespace (Meta pool) with
          | Some _ => (None, s)
          | None => WithRBDCommandInput (Namespace (Meta pool)) s
          end in
        match err with
        | Some err =>
          (Done (Some (RbdCommandInputError (Namespace (Meta pool)) (Name (Meta pool)) err)),
           note (EvError (LogInitFailed (Namespace (Meta pool)) (Name (Meta pool)) err)) s1)
        | None =>
          match rbdCommandInput s1 !! Namespace (Meta pool) with
          | None => (Panic, s1)   (* method call on a nil *rbdCommandInput *)
          | Some in_ =>
            let '((mirrorStatus, err), e2) :=
              rbdImageStatus in_ (Name (Meta pool)) (env s1) in
            match err with
            | Some err => (Done (Some (RbdCommandError err)), set_env e2 s1)
            | None =>
              let s3 := note EvLock (set_env e2 s1) in
              let s4 :=
                note (EvStoreSet (GetUID o))
                  (set_Store
                     (<[GetUID o := {| PoolName := Name (Meta pool);
                                       PoolNamespace := Namespace (Meta pool);
                                       MirrorStatus := mirrorStatus |}]> (Store s3))
                     s3) in
              (Done None, note EvUnlock s4)
            end
          end
        end
    | _ => (Done (Some UnexpectedType), s)
    end
  end.

(** [Update], lines 242-244. *)
Definition Update (obj : Obj) (s : RBDMirrorStore World)
    : outcome (option error) * RBDMirrorStore World :=
  Add obj s.

(** [Delete], lines 246-258. *)
Definition Delete (obj : Obj) (s : RBDMirrorStore World)
    : outcome (option error) * RBDMirrorStore World :=
  match Accessor obj with
  | inl err => (Done (Some err), s)
  | inr o =>
    let s1 := note EvLock s in
    let s2 := note (EvStoreDelete (GetUID o)) (set_Store (delete (GetUID o) (Store s1)) s1) in
    (Done None, note EvUnlock s2)
  end.

(** The [for _, o := range list] loop of [Replace], lines 281-286. *)
Fixpoint Replace_range (list : list Obj) (s : RBDMirrorStore World)
    : outcome (option error) * RBDMirrorStore World :=
  match list with
  | [] => (Done None, s)
  | o :: rest =>
    match Add o s with
    | (Done None, s1) => Replace_range rest s1
    | (r, s1) => (r, s1)
    end
  end.

(** [Replace], lines 276-289. *)
Definition Replace (list : list Obj) (_ : string) (s : RBDMirrorStore World)
    : outcome (option error) * RBDMirrorStore World :=
  let s1 := note EvLock s in
  let s2 := note EvStoreReset (set_Store ∅ s1) in
  let s3 := note EvUnlock s2 in
  Replace_range list s3.

(** One turn of the loop of [Resync] (lines 297-315), for the entry
    [poolUUID ↦ poolStatusVerbose]. *)
Definition Resync_body (poolUUID : UID) (poolStatusVerbose : RBDMirrorPoolStatusVerbose)
    (s : RBDMirrorStore World) : outcome unit * RBDMirrorStore World :=
  let '(err, s1) :=
    match rbdCommandInput s !! PoolNamespace poolStatusVerbose with
    | Some _ => (None, s)
    | None => WithRBDCommandInput (PoolNamespace poolStatusVerbose) s
    end in
  match err with
  | Some err =>
    (Done (),
     note (EvError (LogInitFailed (PoolNamespace poolStatusVerbose)
                      (PoolName poolStatusVerbose) err)) s1)
  | None =>
    match rbdCommandInput s1 !! PoolNamespace poolStatusVerbose with
    | None => (Panic, s1)   (* method call on a nil *rbdCommandInput *)
    | Some in_ =>
      let '((mirrorStatus, err), e2) :=
        rbdImageStatus in_ (PoolName poolStatusVerbose) (env s1) in
      match err with
      | Some err => (Done (), note (EvError (LogRbdError err)) (set_env e2 s1))
      | None =>
        let s2 := set_env e2 s1 in
        (Done (),
         note (EvStoreSet poolUUID)
           (set_Store
              (<[poolUUID := {| PoolName := PoolName poolStatusVerbose;
                                PoolNamespace := PoolNamespace poolStatusVerbose;
                                MirrorStatus := mirrorStatus |}]> (Store s2))
              s2))
      end
    end
  end.

(** [for poolUUID, poolStatusVerbose := range s.Store].  Go leaves the
    order of a map's iteration open: [order] is the order in which this
    run reaches the keys.  The value of an entry is read when the loop
    reaches it. *)
Fixpoint Resync_range (order : list UID) (s : RBDMirrorStore World)
    : outcome unit * RBDMirrorStore World :=
  match order with
  | [] => (Done (), s)
  | poolUUID :: rest =>
    match Store s !! poolUUID with
    | None => Resync_range rest s   (* a key that is not in the map is not reached *)
    | Some poolStatusVerbose =>
      match Resync_body poolUUID poolStatusVerbose s with
      | (Done _, s1) => Resync_range rest s1
      | (Panic, s1) => (Panic, s1)
      end
    end
  end.

(** [Resync], lines 291-319, when the loop reaches the keys in [order].
    The deferred [Unlock] runs last, also when the body panics. *)
Definition Resync_in (order : list UID) (s : RBDMirrorStore World)
    : outcome (option error) * RBDMirrorStore World :=
  let s1 := note (EvInfo LogResyncStarted) s in
  let s2 := note EvLock s1 in
  match Resync_range order s2 with
  | (Done _, s3) => (Done None, note EvUnlock (note (EvInfo LogResyncEnded) s3))
  | (Panic, s3) => (Panic, note EvUnlock s3)
  end.

(** The orders a run of [Resync] on [s] can take: the keys of the map,
    each one once. *)
Definition iteration_order (s : RBDMirrorStore World) (order : list UID) : Prop :=
  order ≡ₚ (map_to_list (Store s)).*1.

(** [Resync] in the order of [map_to_list]. *)
Definition Resync (s : RBDMirrorStore World)
    : outcome (option error) * RBDMirrorStore World :=
  Resync_in (map_to_list (Store s)).*1 s.

(** What an operation added to the trace. *)
Definition emitted (s s' : RBDMirrorStore World) : list Event :=
  drop (length (trace (env s))) (trace (env s')).

(** *** Vocabulary of the statements

    [Add] (lines 217-228) and the loop of [Resync] (lines 297-309) make
    the same attempt for a pool: resolve the credentials of its namespace
    unless they are cached, then fetch the status.  [attempt] writes it
    once, to state what the two do; neither model above is built from it
    ([Add_attempt] and [Resync_body_attempt] relate them). *)
Inductive attempted : Type :=
| ResolveFailed (err : error)
| FetchFailed (err : error)
| Fetched (mirrorStatus : RBDMirrorStatusVerbose)
| NilInput.   (* the namespace has no input after a resolution without error *)

Definition attempt (namespace poolName : string) (s : RBDMirrorStore World)
    : attempted * RBDMirrorStore World :=
  let '(err, s1) :=
    match rbdCommandInput s !! namespace with
    | Some _ => (None, s)
    | None => WithRBDCommandInput namespace s
    end in
  match err with
  | Some err => (ResolveFailed err, s1)
  | None =>
    match rbdCommandInput s1 !! namespace with
    | None => (NilInput, s1)
    | Some in_ =>
      let '((mirrorStatus, err), e2) := rbdImageStatus in_ poolName (env s1) in
      match err with
      | Some err => (FetchFailed err, set_env e2 s1)
      | None => (Fetched mirrorStatus, set_env e2 s1)
      end
    end
  end.

(** The environment after the two reads of [WithRBDCommandInput], which
    leave the world as [w]. *)
Definition after_reads (namespace : string) (w : World) (s : RBDMirrorStore World)
    : Env World :=
  {| world := w;
     trace := trace (env s) ++ [EvSecretsGet namespace "rook-ceph-mon";
                                EvConfigMapsGet namespace "rook-ceph-csi-config"] |}.

(** The pools of a list that have mirroring on, in the order of the list. *)
Fixpoint mirrored (objs : list Obj) : list CephBlockPool :=
  match objs with
  | [] => []
  | ObjCephBlockPool pool :: rest =>
    if Enabled (Mirroring (Spec pool)) then pool :: mirrored rest else mirrored rest
  | _ :: rest => mirrored rest
  end.

(** [s'] has the trace of [s] and more. *)
Definition extends (s s' : RBDMirrorStore World) : Prop :=
  ∃ evs, trace (env s') = trace (env s) ++ evs.

(** Two entries are the same pool: they differ in the status at most. *)
Definition same_pool (o o' : option RBDMirrorPoolStatusVerbose) : Prop :=
  match o, o' with
  | Some v, Some v' => PoolName v' = PoolName v ∧ PoolNamespace v' = PoolNamespace v
  | None, None => True
  | _, _ => False
  end.

(** The record that [Add] and [Resync] write. *)
Definition record (poolName poolNamespace : string) (mirrorStatus : RBDMirrorStatusVerbose)
    : RBDMirrorPoolStatusVerbose :=
  {| PoolName := poolName; PoolNamespace := poolNamespace; MirrorStatus := mirrorStatus |}.

(** The state of [Replace] and of [Resync] when their loop starts. *)
Definition Replace_start (s : RBDMirrorStore World) : RBDMirrorStore World :=
  note EvUnlock (note EvStoreReset (set_Store ∅ (note EvLock s))).

Definition Resync_start (s : RBDMirrorStore World) : RBDMirrorStore World :=
  note EvLock (note (EvInfo LogResyncStarted) s).

End Model.

(** ** A scripted environment

    A world to run the model in: the secrets and configmaps of each
    namespace, the outputs of the coming [rbd] calls, and decoders that
    know the documents below. *)
Module Fixture.

Definition q : string := String (Ascii.ascii_of_nat 34) EmptyString.

(** [[{"clusterID":"c1","monitors":["10.0.0.1:6789"]}]] *)
Definition clusterConfigJSON : string :=
  "[{" +:+ q +:+ "clusterID" +:+ q +:+ ":" +:+ q +:+ "c1" +:+ q +:+ ","
    +:+ q +:+ "monitors" +:+ q +:+ ":[" +:+ q +:+ "10.0.0.1:6789" +:+ q +:+ "]}]".

(** Two clusters, the first with two monitors. *)
Definition clusterConfigJSON2 : string :=
  "[{" +:+ q +:+ "clusterID" +:+ q +:+ ":" +:+ q +:+ "c1" +:+ q +:+ ","
    +:+ q +:+ "monitors" +:+ q +:+ ":[" +:+ q +:+ "10.0.0.1:6789" +:+ q +:+ ","
    +:+ q +:+ "10.0.0.2:6789" +:+ q +:+ "]},{"
    +:+ q +:+ "clusterID" +:+ q +:+ ":" +:+ q +:+ "c2" +:+ q +:+ ","
    +:+ q +:+ "monitors" +:+ q +:+ ":[" +:+ q +:+ "10.9.9.9:6789" +:+ q +:+ "]}]".

(** [[{"clusterID":"c1","monitors":[]}]] *)
Definition noMonitorsJSON : string :=
  "[{" +:+ q +:+ "clusterID" +:+ q +:+ ":" +:+ q +:+ "c1" +:+ q +:+ ","
    +:+ q +:+ "monitors" +:+ q +:+ ":[]}]".

(** [{"summary":{"health":"OK"}}] and [{"summary":{"health":"WARNING"}}] *)
Definition statusJSON (health : string) : string :=
  "{" +:+ q +:+ "summary" +:+ q +:+ ":{" +:+ q +:+ "health" +:+ q +:+ ":"
    +:+ q +:+ health +:+ q +:+ "}}".

Definition statusWith (health : string) : RBDMirrorStatusVerbose :=
  {| Summary := {| Health := health; DaemonHealth := ""; ImageHealth := "";
                   States := States (Summary zeroStatus) |};
     Daemons := [];
     Images := [] |}.

Record FakeWorld := {
  secrets : gmap string Secret;
  configmaps : gmap string ConfigMap;
  rbd : list (string * option error)
}.

#[global] Instance fake_external : External FakeWorld := {|
  SecretsGet namespace _ w :=
    (match secrets w !! namespace with
     | Some secret => inr secret
     | None => inl (Foreign "secrets not found")
     end, w);
  ConfigMapsGet namespace _ w :=
    (match configmaps w !! namespace with
     | Some configmap => inr configmap
     | None => inl (Foreign "configmaps not found")
     end, w);
  CombinedOutput _ _ w :=
    match rbd w with
    | [] => (("", Some (Foreign "exit status 1")), w)
    | out :: rest =>
      (out, {| secrets := secrets w; configmaps := configmaps w; rbd := rest |})
    end;
  UnmarshalClusterConfig data :=
    if decide (data = clusterConfigJSON) then
      ([{| ClusterID := "c1"; Monitors := ["10.0.0.1:6789"] |}], None)
    else if decide (data = clusterConfigJSON2) then
      ([{| ClusterID := "c1"; Monitors := ["10.0.0.1:6789"; "10.0.0.2:6789"] |};
        {| ClusterID := "c2"; Monitors := ["10.9.9.9:6789"] |}], None)
    else if decide (data = noMonitorsJSON) then
      ([{| ClusterID := "c1"; Monitors := [] |}], None)
    else if decide (data = "[]") then ([], None)
    else ([], Some (Foreign "invalid character"));
  UnmarshalStatus out :=
    if decide (out = statusJSON "OK") then (statusWith "OK", None)
    else if decide (out = statusJSON "WARNING") then (statusWith "WARNING", None)
    else (zeroStatus, Some (Foreign "invalid character"))
|}.

Definition secretOf (key : string) : Secret :=
  {| secret_Data := {[ "ceph-secret" := key ]} |}.

Definition configMapOf (data : string) : ConfigMap :=
  {| configmap_Data := {[ "csi-cluster-config-json" := data ]} |}.

(** Namespace [ns1] has the secret of the specification's example and a
    configmap with [data]; namespace [ns2] is allowed and has neither. *)
Definition worldOf (data : string) (outputs : list (string * option error)) : FakeWorld :=
  {| secrets := {[ "ns1" := secretOf "AQABCDEF==" ]};
     configmaps := {[ "ns1" := configMapOf data ]};
     rbd := outputs |}.

Definition storeOf (data : string) (outputs : list (string * option error))
    : RBDMirrorStore FakeWorld :=
  {| Store := ∅; rbdCommandInput := ∅; allowedNamespaces := ["ns1"; "ns2"];
     env := {| world := worldOf data outputs; trace := [] |} |}.

(** The specification's example. *)
Definition store1 (outputs : list (string * option error)) : RBDMirrorStore FakeWorld :=
  storeOf clusterConfigJSON outputs.

Definition cephBlockPool (name namespace uid : string) (enabled : bool) : CephBlockPool :=
  {| Meta := {| Name := name; Namespace := namespace; GetUID := uid |};
     Spec := {| Mirroring := {| Enabled := enabled |} |} |}.

Definition pool (name namespace uid : string) (enabled : bool) : Obj :=
  ObjCephBlockPool (cephBlockPool name namespace uid enabled).

Definition admin1 : rbdCommandInputT :=
  {| monitor := "10.0.0.1:6789"; id := "admin"; key := "AQABCDEF==" |}.

(** A store that holds [pool1] of [ns1] and [pool2] of [ns2], both healthy,
    and no input yet. *)
Definition store2 (outputs : list (string * option error)) : RBDMirrorStore FakeWorld :=
  {| Store := {[ "u1" := record "pool1" "ns1" (statusWith "OK");
                 "u2" := record "pool2" "ns2" (statusWith "OK") ]};
     rbdCommandInput := ∅; allowedNamespaces := ["ns1"; "ns2"];
     env := {| world := worldOf clusterConfigJSON outputs; trace := [] |} |}.

(** The same with the input of [ns1] cached. *)
Definition store3 (outputs : list (string * option error)) : RBDMirrorStore FakeWorld :=
  {| Store := Store (store2 outputs);
     rbdCommandInput := {[ "ns1" := admin1 ]}; allowedNamespaces := ["ns1"; "ns2"];
     env := env (store2 outputs) |}.

End Fixture.

(** ** The bootstrap of the process (lines 98-108, 132-145 and 364-400) *)

Definition cephConfigRoot : string := "/etc/ceph".
Definition cephConfigPath : string := "/etc/ceph/ceph.conf".
Definition keyRing : string := "/etc/ceph/keyring".

Definition newline : string := String (Ascii.ascii_of_nat 10) EmptyString.

Definition cephConfig : string :=
  "[global]" +:+ newline
  +:+ "auth_cluster_required = cephx" +:+ newline
  +:+ "auth_service_required = cephx" +:+ newline
  +:+ "auth_client_required = cephx" +:+ newline.

(** The calls to [os], each with the error it returned. *)
Inductive FsEvent : Type :=
| FsMkdirAll (path : string) (perm : Z) (err : option error)
| FsStat (name : string) (err : option error)
| FsCreate (name : string) (err : option error)
| FsWriteFile (name data : string) (perm : Z) (err : option error).

Definition fs_err (ev : FsEvent) : option error :=
  match ev with
  | FsMkdirAll _ _ err | FsStat _ err | FsCreate _ err | FsWriteFile _ _ _ err => err
  end.

(** The file system of the process.  [os.Stat] and [os.Create] return a
    value besides the error; the code drops it. *)
Class FileSystem (World : Type) := {
  MkdirAll : string → Z → World → option error * World;
  Stat : string → World → option error * World;
  Create : string → World → option error * World;
  WriteFile : string → string → Z → World → option error * World;
  (* os.IsNotExist, on an error that is not nil *)
  IsNotExist : error → bool
}.

(** [clientset.NewForConfigOrDie] returns a client or panics. *)
Class ClientFactory (World Kubeconfig : Type) := {
  NewForConfigOrDie : Kubeconfig → World → outcome unit * World
}.

(** Modelled from the spec: [options.Options] is declared in
    metrics/internal/options, which is not among the sources; the
    constructor reads its fields [Kubeconfig] and [AllowedNamespaces], the
    allow-list "supplied at construction". *)
Record Options (Kubeconfig : Type) := {
  Kubeconfig_of : Kubeconfig;
  AllowedNamespaces : list string
}.
Arguments Kubeconfig_of {Kubeconfig} _.
Arguments AllowedNamespaces {Kubeconfig} _.

(** The process before the store exists: its world and the calls to [os]
    made so far. *)
Record Proc (World : Type) := {
  proc_world : World;
  fslog : list FsEvent
}.
Arguments proc_world {World} _.
Arguments fslog {World} _.

Section Bootstrap.
Context {World Kubeconfig : Type} `{FileSystem World} `{ClientFactory World Kubeconfig}.

(** [os.IsNotExist(err)]: false on nil. *)
Definition isNotExist (err : option error) : bool :=
  match err with
  | Some e => IsNotExist e
  | None => false
  end.

Definition os_MkdirAll (path : string) (perm : Z) (p : Proc World) : option error * Proc World :=
  let '(err, w) := MkdirAll path perm (proc_world p) in
  (err, {| proc_world := w; fslog := fslog p ++ [FsMkdirAll path perm err] |}).

Definition os_Stat (name : string) (p : Proc World) : option error * Proc World :=
  let '(err, w) := Stat name (proc_world p) in
  (err, {| proc_world := w; fslog := fslog p ++ [FsStat name err] |}).

Definition os_Create (name : string) (p : Proc World) : option error * Proc World :=
  let '(err, w) := Create name (proc_world p) in
  (err, {| proc_world := w; fslog := fslog p ++ [FsCreate name err] |}).

Definition os_WriteFile (name data : string) (perm : Z) (p : Proc World)
    : option error * Proc World :=
  let '(err, w) := WriteFile name data perm (proc_world p) in
  (err, {| proc_world := w; fslog := fslog p ++ [FsWriteFile name data perm err] |}).

(** [createCephConfigRoot], lines 369-371: mode [0o755]. *)
Definition createCephConfigRoot (p : Proc World) : option error * Proc World :=
  os_MkdirAll cephConfigRoot 493 p.

(** [createKeyRingFile], lines 374-381. *)
Definition createKeyRingFile (p : Proc World) : option error * Proc World :=
  let '(err, p1) := os_Stat keyRing p in
  if isNotExist err then os_Create keyRing p1 else (err, p1).

(** [writeCephConfig], lines 385-400: mode [0o600]. *)
Definition writeCephConfig (p : Proc World) : option error * Proc World :=
  let '(err, p1) := createCephConfigRoot p in
  match err with
  | Some err => (Some err, p1)
  | None =>
    let '(err, p2) := os_Stat cephConfigPath p1 in
    let '(err, p3) :=
      if isNotExist err then os_WriteFile cephConfigPath cephConfig 384 p2 else (err, p2) in
    match err with
    | Some err => (Some err, p3)
    | None => createKeyRingFile p3
    end
  end.

(** [NewRBDMirrorStore], lines 132-145.  The fields of the literal are
    evaluated in their order: the client is made after the two maps. *)
Definition NewRBDMirrorStore (opts : Options Kubeconfig) (p : Proc World)
    : outcome (RBDMirrorStore World) * Proc World :=
  let '(err, p1) := writeCephConfig p in
  match err with
  | Some err => (Panic, p1)
  | None =>
    match NewForConfigOrDie (Kubeconfig_of opts) (proc_world p1) with
    | (Panic, w) => (Panic, {| proc_world := w; fslog := fslog p1 |})
    | (Done _, w) =>
      (Done {| Store := ∅;
               rbdCommandInput := ∅;
               allowedNamespaces := AllowedNamespaces opts;
               env := {| world := w; trace := [] |} |},
       {| proc_world := w; fslog := fslog p1 |})
    end
  end.

(** *** Vocabulary of the statements *)

(** A call that changes a file. *)
Definition fs_writes (ev : FsEvent) : option string :=
  match ev with
  | FsCreate name _ | FsWriteFile name _ _ _ => Some name
  | _ => None
  end.

(** In a log, every call that changes a file comes right after a [Stat] of
    that file which reported that it does not exist.  [prev] is the event
    before the log. *)
Fixpoint no_clobber (prev : option FsEvent) (log : list FsEvent) : bool :=
  match log with
  | [] => true
  | ev :: rest =>
    match fs_writes ev with
    | None => true
    | Some name =>
      match prev with
      | Some (FsStat name' err) => bool_decide (name' = name) && isNotExist err
      | _ => false
      end
    end && no_clobber (Some ev) rest
  end.

(** An event that ends the bootstrap: an error, other than the [Stat] that
    finds no file. *)
Definition fs_fatal (ev : FsEvent) : bool :=
  match ev with
  | FsStat _ err => bool_decide (is_Some err) && negb (isNotExist err)
  | _ => bool_decide (is_Some (fs_err ev))
  end.

(** A log that makes sure of one file: a [Stat] that finds it, or a
    [Stat] that finds no file and then the call that makes it, without
    error. *)
Definition ensured (name : string) (log : list FsEvent) : bool :=
  match log with
  | [FsStat name' None] => bool_decide (name' = name)
  | [FsStat name' (Some e); ev] =>
    bool_decide (name' = name) && IsNotExist e
    && bool_decide (fs_writes ev = Some name) && bool_decide (fs_err ev = None)
  | _ => false
  end.

(** The calls to [os] of a run that started at [p] and is at [p']. *)
Definition fs_emitted (p p' : Proc World) : list FsEvent :=
  drop (length (fslog p)) (fslog p').

End Bootstrap.

(** ** The read methods and the histories of a store *)

Section History.
Context {World : Type} `{External World}.

(** [List], [ListKeys], [Get] and [GetByKey], lines 260-274: they return
    nil, false and no error, whatever the store holds. *)
Definition List (s : RBDMirrorStore World) : list Obj := [].

Definition ListKeys (s : RBDMirrorStore World) : list string := [].

Definition Get (obj : Obj) (s : RBDMirrorStore World) : option Obj * bool * option error :=
  (None, false, None).

Definition GetByKey (key : string) (s : RBDMirrorStore World)
    : option Obj * bool * option error :=
  (None, false, None).

(** The calls that the event source makes on the store: the write methods
    of [cache.Store].  A [Resync] comes with the order of its loop. *)
Inductive Op : Type :=
| OpAdd (obj : Obj)
| OpUpdate (obj : Obj)
| OpDelete (obj : Obj)
| OpReplace (list : list Obj) (resourceVersion : string)
| OpResync (order : list UID).

Definition call (op : Op) (s : RBDMirrorStore World)
    : outcome (option error) * RBDMirrorStore World :=
  match op with
  | OpAdd obj => Add obj s
  | OpUpdate obj => Update obj s
  | OpDelete obj => Delete obj s
  | OpReplace list resourceVersion => Replace list resourceVersion s
  | OpResync order => Resync_in order s
  end.

(** A history: the calls one after the other, whatever they return; a
    panic ends it. *)
Fixpoint run (ops : list Op) (s : RBDMirrorStore World)
    : outcome unit * RBDMirrorStore World :=
  match ops with
  | [] => (Done (), s)
  | op :: rest =>
    match call op s with
    | (Done _, s1) => run rest s1
    | (Panic, s1) => (Panic, s1)
    end
  end.

(** The state of the mutex after a trace that started with it [held]. *)
Fixpoint mutex_after (held : bool) (t : list Event) : bool :=
  match t with
  | [] => held
  | EvLock :: t => mutex_after true t
  | EvUnlock :: t => mutex_after false t
  | _ :: t => mutex_after held t
  end.

(** The state of the mutex at each call that leaves the process. *)
Fixpoint mutex_at_calls (held : bool) (t : list Event) : list bool :=
  match t with
  | [] => []
  | EvLock :: t => mutex_at_calls true t
  | EvUnlock :: t => mutex_at_calls false t
  | ev :: t =>
    if is_external ev then held :: mutex_at_calls held t else mutex_at_calls held t
  end.

(** What the write methods keep true of a store: an input is cached for
    allowed namespaces only and has the id ["admin"], and the namespace of
    every record has an input. *)
Definition consistent (s : RBDMirrorStore World) : Prop :=
  (∀ namespace in_, rbdCommandInput s !! namespace = Some in_ →
     namespace ∈ allowedNamespaces s ∧ id in_ = "admin")
  ∧ (∀ uid v, Store s !! uid = Some v →
       is_Some (rbdCommandInput s !! PoolNamespace v)).

End History.

(** ** The deployment tool ([main], lines 401-456 of the cache's source
    file)

    The deploy manager ([pkg/deploy-manager]) is not among the sources: its
    methods are the fields of the class [DeployManager], and are taken to
    return. *)
Record Flags := {
  ocsRegistryImage : string;
  ocsSubscriptionChannel : string;
  yamlOutputPath : string;
  arbiterEnabled : bool
}.

Inductive DeployLine : Type :=
| LineDeploying (image : string)
| LineStarting
| LineSuccessful.

Inductive DeployEvent : Type :=
| DvFatal (msg : string)
| DvNewDeployManager
| DvEnableArbiter
| DvDumpYAML (image channel : string)
| DvWriteFile (path data : string) (perm : Z) (err : option error)
| DvPrintf (line : DeployLine)
| DvDeployOCSWithOLM (image channel : string) (err : option error)
| DvStartDefaultStorageCluster (err : option error).

(** How the process ends: [os.Exit], the return of [main], or a panic. *)
Inductive ended : Type :=
| Exited (status : Z)
| Returned
| Panicked (err : error).

Class DeployManager (World T : Type) := {
  (* t, _ := deploymanager.NewDeployManager(): the error is dropped *)
  NewDeployManager : World → T * World;
  EnableArbiter : T → World → World;
  DumpYAML : T → string → string → World → string * World;
  (* ioutil.WriteFile *)
  IoutilWriteFile : string → string → Z → World → option error * World;
  DeployOCSWithOLM : T → string → string → World → option error * World;
  StartDefaultStorageCluster : T → World → option error * World
}.

Section Deploy.
Context {World T : Type} `{DeployManager World T}.

(** [main], lines 419-456; file mode [0644]. *)
Definition main (f : Flags) (w : World) : ended * World * list DeployEvent :=
  if decide (ocsRegistryImage f = "") then
    (Exited 1, w, [DvFatal "--ocs-registry-image is required"])
  else if decide (ocsSubscriptionChannel f = "") then
    (Exited 1, w, [DvFatal "--ocs-subscription-channel is required"])
  else
    let '(t, w1) := NewDeployManager w in
    let log1 := [DvNewDeployManager] in
    let '(w2, log2) :=
      if arbiterEnabled f then (EnableArbiter t w1, log1 ++ [DvEnableArbiter])
      else (w1, log1) in
    if decide (yamlOutputPath f ≠ "") then
      let '(yaml, w3) := DumpYAML t (ocsRegistryImage f) (ocsSubscriptionChannel f) w2 in
      let log3 := log2 ++ [DvDumpYAML (ocsRegistryImage f) (ocsSubscriptionChannel f)] in
      let '(err, w4) := IoutilWriteFile (yamlOutputPath f) yaml 420 w3 in
      let log4 := log3 ++ [DvWriteFile (yamlOutputPath f) yaml 420 err] in
      match err with
      | Some err => (Panicked err, w4, log4)
      | None => (Exited 0, w4, log4)
      end
    else
      let log3 := log2 ++ [DvPrintf (LineDeploying (ocsRegistryImage f))] in
      let '(err, w3) :=
        DeployOCSWithOLM t (ocsRegistryImage f) (ocsSubscriptionChannel f) w2 in
      let log4 :=
        log3 ++ [DvDeployOCSWithOLM (ocsRegistryImage f) (ocsSubscriptionChannel f) err] in
      match err with
      | Some err => (Panicked err, w3, log4)
      | None =>
        let log5 := log4 ++ [DvPrintf LineStarting] in
        let '(err, w4) := StartDefaultStorageCluster t w3 in
        let log6 := log5 ++ [DvStartDefaultStorageCluster err] in
        match err with
        | Some err => (Panicked err, w4, log6)
        | None => (Returned, w4, log6 ++ [DvPrintf LineSuccessful])
        end
      end.


(** A call of the dry run. *)
Definition dv_dumps (ev : DeployEvent) : bool :=
  match ev with
  | DvDumpYAML _ _ | DvWriteFile _ _ _ _ => true
  | _ => false
  end.

End Deploy.

(** ** The ceph toolbox (controllers/storagecluster/cephtoolbox.go)

    The storage cluster type, its method [NewToolsDeployment] and
    [defaults.NodeTolerationKey] are declared in packages that are not
    among the sources: they are fields of the class [Toolbox], with the
    client, [errors.IsNotFound], [controllerutil.SetOwnerReference] and
    [reflect.DeepEqual]. *)
Definition rookCephToolDeploymentName : string := "rook-ceph-tools".

(** [corev1.Toleration]. *)
Record Toleration := {
  tol_Key : string;
  tol_Operator : string;
  tol_Value : string;
  tol_Effect : string;
  tol_TolerationSeconds : option Z
}.

(** [appsv1.Deployment]: metadata, spec and status. *)
Record Deployment (DMeta DSpec DStatus : Type) := {
  dep_Meta : DMeta;
  dep_Spec : DSpec;
  dep_Status : DStatus
}.
Arguments dep_Meta {DMeta DSpec DStatus} _.
Arguments dep_Spec {DMeta DSpec DStatus} _.
Arguments dep_Status {DMeta DSpec DStatus} _.

Inductive TbEvent (DMeta DSpec DStatus : Type) : Type :=
| TbGetDeployment (name namespace : string) (err : option error)
| TbGetOCSInit (name namespace : string) (err : option error)
| TbCreate (d : Deployment DMeta DSpec DStatus) (err : option error)
| TbUpdate (d : Deployment DMeta DSpec DStatus) (err : option error)
| TbDelete (d : Deployment DMeta DSpec DStatus) (err : option error).
Arguments TbGetDeployment {DMeta DSpec DStatus} _ _ _.
Arguments TbGetOCSInit {DMeta DSpec DStatus} _ _ _.
Arguments TbCreate {DMeta DSpec DStatus} _ _.
Arguments TbUpdate {DMeta DSpec DStatus} _ _.
Arguments TbDelete {DMeta DSpec DStatus} _ _.

Class Toolbox (World StorageCluster DMeta DSpec DStatus : Type) := {
  sc_Namespace : StorageCluster → string;
  (* sc.Spec.EnableCephTools *)
  sc_EnableCephTools : StorageCluster → bool;
  (* sc.Spec.ManagedResources.CephToolbox.Tolerations *)
  sc_ToolboxTolerations : StorageCluster → list Toleration;
  NodeTolerationKey : string;
  NewToolsDeployment : StorageCluster → list Toleration → Deployment DMeta DSpec DStatus;
  (* r.Client.Get into an empty Deployment: the error and the object after the call *)
  ClientGetDeployment :
    string → string → World → (option error * Deployment DMeta DSpec DStatus) * World;
  (* r.Client.Get into an empty OCSInitialization: the error and the value
     of Spec.EnableCephTools after the call *)
  ClientGetOCSInit : string → string → World → (option error * bool) * World;
  IsNotFound : error → bool;
  (* controllerutil.SetOwnerReference changes the metadata of its second argument *)
  SetOwnerReference : StorageCluster → DMeta → error + DMeta;
  (* reflect.DeepEqual on two DeploymentSpec *)
  DeepEqual : DSpec → DSpec → bool;
  ClientCreate : Deployment DMeta DSpec DStatus → World → option error * World;
  ClientUpdate : Deployment DMeta DSpec DStatus → World → option error * World;
  ClientDelete : Deployment DMeta DSpec DStatus → World → option error * World
}.

Section ToolboxModel.
Context {World StorageCluster DMeta DSpec DStatus : Type}
  `{Toolbox World StorageCluster DMeta DSpec DStatus}.

Abbreviation TbLog := (list (TbEvent DMeta DSpec DStatus)).

(** The tolerations of the tools deployment, lines 27-34. *)
Definition toolsTolerations (sc : StorageCluster) : list Toleration :=
  [{| tol_Key := NodeTolerationKey; tol_Operator := "Equal"; tol_Value := "true";
      tol_Effect := "NoSchedule"; tol_TolerationSeconds := None |}]
  ++ sc_ToolboxTolerations sc.

(** [ensureToolsDeployment], lines 22-78. *)
Definition ensureToolsDeployment (sc : StorageCluster) (w : World)
    : option error * World * TbLog :=
  let namespace := sc_Namespace sc in
  let tolerations := toolsTolerations sc in
  let toolsDeployment := NewToolsDeployment sc tolerations in
  let '((err, foundToolsDeployment), w1) :=
    ClientGetDeployment rookCephToolDeploymentName namespace w in
  let log1 : TbLog := [TbGetDeployment rookCephToolDeploymentName namespace err] in
  match
    match err with
    | None => inr true
    | Some e => if IsNotFound e then inr false else inl e
    end
  with
  | inl e => (Some e, w1, log1)
  | inr isFound =>
    let '((err, ocsinit_EnableCephTools), w2) := ClientGetOCSInit "ocsinit" namespace w1 in
    let log2 := log1 ++ [TbGetOCSInit "ocsinit" namespace err] in
    match
      match err with
      | Some e => if IsNotFound e then None else Some e
      | None => None
      end
    with
    | Some e => (Some e, w2, log2)
    | None =>
      if sc_EnableCephTools sc || ocsinit_EnableCephTools then
        match SetOwnerReference sc (dep_Meta toolsDeployment) with
        | inl e => (Some e, w2, log2)
        | inr meta =>
          let toolsDeployment :=
            {| dep_Meta := meta; dep_Spec := dep_Spec toolsDeployment;
               dep_Status := dep_Status toolsDeployment |} in
          if negb isFound then
            let '(err, w3) := ClientCreate toolsDeployment w2 in
            (err, w3, log2 ++ [TbCreate toolsDeployment err])
          else if negb (DeepEqual (dep_Spec foundToolsDeployment) (dep_Spec toolsDeployment))
          then
            let updateDeployment :=
              {| dep_Meta := dep_Meta foundToolsDeployment;
                 dep_Spec := dep_Spec toolsDeployment;
                 dep_Status := dep_Status foundToolsDeployment |} in
            let '(err, w3) := ClientUpdate updateDeployment w2 in
            (err, w3, log2 ++ [TbUpdate updateDeployment err])
          else (None, w2, log2)
        end
      else if isFound then
        let '(err, w3) := ClientDelete foundToolsDeployment w2 in
        (err, w3, log2 ++ [TbDelete foundToolsDeployment err])
      else (None, w2, log2)
    end
  end.

(** A call that changes the cluster. *)
Definition tb_writes (ev : TbEvent DMeta DSpec DStatus) : bool :=
  match ev with
  | TbCreate _ _ | TbUpdate _ _ | TbDelete _ _ => true
  | _ => false
  end.

(** The error of a read that ends the reconciliation: any but not-found. *)
Definition tb_fatal (err : option error) : bool :=
  match err with
  | Some e => negb (IsNotFound e)
  | None => false
  end.

Definition tb_err (ev : TbEvent DMeta DSpec DStatus) : option error :=
  match ev with
  | TbGetDeployment _ _ err | TbGetOCSInit _ _ err
  | TbCreate _ err | TbUpdate _ err | TbDelete _ err => err
  end.

End ToolboxModel.

(** ** A scripted process

    A world with a file system in memory beside the scripted cluster: a
    file system that can be read-only, and a client factory that accepts
    the configuration [true]. *)
Module FixtureBoot.

Record BootWorld := {
  nodes : gmap string string;
  readonly : bool;
  kube : Fixture.FakeWorld
}.

Definition set_nodes (m : gmap string string) (w : BootWorld) : BootWorld :=
  {| nodes := m; readonly := readonly w; kube := kube w |}.

Definition set_kube (k : Fixture.FakeWorld) (w : BootWorld) : BootWorld :=
  {| nodes := nodes w; readonly := readonly w; kube := k |}.

Definition enoent : error := Foreign "no such file or directory".
Definition erofs : error := Foreign "read-only file system".

Definition change (m : gmap string string) (w : BootWorld) : option error * BootWorld :=
  if readonly w then (Some erofs, w) else (None, set_nodes m w).

#[global] Instance boot_fs : FileSystem BootWorld := {|
  MkdirAll path _ w :=
    match nodes w !! path with
    | Some _ => (None, w)
    | None => change (<[path := ""]> (nodes w)) w
    end;
  Stat name w :=
    (match nodes w !! name with Some _ => None | None => Some enoent end, w);
  Create name w := change (<[name := ""]> (nodes w)) w;
  WriteFile name data _ w := change (<[name := data]> (nodes w)) w;
  IsNotExist e :=
    match e with
    | Foreign msg => bool_decide (msg = "no such file or directory")
    | _ => false
    end
|}.

#[global] Instance boot_factory : ClientFactory BootWorld bool := {|
  NewForConfigOrDie (ok : bool) (w : BootWorld) :=
    if ok then (Done (), w) else (Panic, w)
|}.

#[global] Instance boot_external : External BootWorld := {|
  SecretsGet namespace name w :=
    let '(r, k) := SecretsGet namespace name (kube w) in (r, set_kube k w);
  ConfigMapsGet namespace name w :=
    let '(r, k) := ConfigMapsGet namespace name (kube w) in (r, set_kube k w);
  CombinedOutput command args w :=
    let '(r, k) := CombinedOutput command args (kube w) in (r, set_kube k w);
  UnmarshalClusterConfig := UnmarshalClusterConfig (World := Fixture.FakeWorld);
  UnmarshalStatus := UnmarshalStatus (World := Fixture.FakeWorld)
|}.

(** A process on an empty disk, with the cluster of [Fixture.worldOf]. *)
Definition proc (ro : bool) (outputs : list (string * option error)) : Proc BootWorld :=
  {| proc_world := {| nodes := ∅; readonly := ro;
                      kube := Fixture.worldOf Fixture.clusterConfigJSON outputs |};
     fslog := [] |}.

(** The process after a bootstrap, with an operator's own ceph.conf. *)
Definition proc_custom (outputs : list (string * option error)) : Proc BootWorld :=
  {| proc_world := {| nodes := {[ "/etc/ceph" := ""; "/etc/ceph/ceph.conf" := "[global]" ]};
                      readonly := false;
                      kube := Fixture.worldOf Fixture.clusterConfigJSON outputs |};
     fslog := [] |}.

Definition opts1 : Options bool :=
  {| Kubeconfig_of := true; AllowedNamespaces := ["ns1"] |}.

(** The store that [NewRBDMirrorStore opts1] makes of [proc false outputs]. *)
Definition store0 (outputs : list (string * option error)) : RBDMirrorStore BootWorld :=
  {| Store := ∅; rbdCommandInput := ∅; allowedNamespaces := ["ns1"];
     env := {| world := {| nodes := {[ "/etc/ceph" := "";
                                       "/etc/ceph/ceph.conf" := cephConfig;
                                       "/etc/ceph/keyring" := "" ]};
                           readonly := false;
                           kube := Fixture.worldOf Fixture.clusterConfigJSON outputs |};
               trace := [] |} |}.

(** A consistent store of the scripted cluster: two pools of [ns1], whose
    input is cached. *)
Definition store4 (outputs : list (string * option error))
    : RBDMirrorStore Fixture.FakeWorld :=
  {| Store := {[ "u1" := record "pool1" "ns1" (Fixture.statusWith "OK");
                 "u3" := record "pool3" "ns1" (Fixture.statusWith "OK") ]};
     rbdCommandInput := {[ "ns1" := Fixture.admin1 ]};
     allowedNamespaces := ["ns1"; "ns2"];
     env := {| world := Fixture.worldOf Fixture.clusterConfigJSON outputs; trace := [] |} |}.

(** A history: two pools are added, one from a namespace without secret;
    the list is replaced; a sweep follows. *)
Definition history1 : list Op :=
  [OpAdd (Fixture.pool "pool1" "ns1" "u1" true);
   OpAdd (Fixture.pool "pool2" "ns2" "u2" true);
   OpReplace [Fixture.pool "pool1" "ns1" "u1" true; Fixture.pool "pool9" "ns1" "u9" false] "7";
   OpDelete (Fixture.pool "pool9" "ns1" "u9" false);
   OpResync ["u1"]].

End FixtureBoot.

(** ** A scripted deploy manager and a scripted cluster for the toolbox *)
Module FixtureDeploy.

(** The world is what happened to it; [fails] names the calls that fail. *)
Record DeployWorld := {
  fails : list string;
  acts : list string
}.

Definition act (name : string) (w : DeployWorld) : option error * DeployWorld :=
  if bool_decide (name ∈ fails w) then (Some (Foreign name), w)
  else (None, {| fails := fails w; acts := acts w ++ [name] |}).

#[global] Instance fake_manager : DeployManager DeployWorld unit := {|
  NewDeployManager w := (tt, w);
  EnableArbiter _ w := (act "arbiter" w).2;
  DumpYAML _ image channel w := ("image: " +:+ image +:+ " channel: " +:+ channel, w);
  IoutilWriteFile path _ _ w := act ("write " +:+ path) w;
  DeployOCSWithOLM _ _ _ w := act "deploy" w;
  StartDefaultStorageCluster _ w := act "start" w
|}.

Definition flags (image channel path : string) : Flags :=
  {| ocsRegistryImage := image; ocsSubscriptionChannel := channel;
     yamlOutputPath := path; arbiterEnabled := true |}.

Definition world (failing : list string) : DeployWorld :=
  {| fails := failing; acts := [] |}.

End FixtureDeploy.

Module FixtureToolbox.

Record Cluster := {
  c_Namespace : string;
  c_EnableCephTools : bool;
  c_Tolerations : list Toleration
}.

(** The deployment of the cluster, if any, and the flag of ocsinit, if
    there is one.  Metadata is the list of owners, the spec the list of
    tolerations, the status the number of ready replicas. *)
Record Api := {
  deployment : option (Deployment (list string) (list Toleration) nat);
  ocsinit : option bool
}.

#[global] Instance Toleration_eq_dec : EqDecision Toleration.
Proof. solve_decision. Defined.

Definition notFound : error := Foreign "not found".

#[global] Instance fake_toolbox :
    Toolbox Api Cluster (list string) (list Toleration) nat := {|
  sc_Namespace := c_Namespace;
  sc_EnableCephTools := c_EnableCephTools;
  sc_ToolboxTolerations := c_Tolerations;
  NodeTolerationKey := "node.ocs.openshift.io/storage";
  NewToolsDeployment sc tolerations :=
    {| dep_Meta := []; dep_Spec := tolerations; dep_Status := 0 |};
  ClientGetDeployment _ _ w :=
    (match deployment w with
     | Some d => (None, d)
     | None => (Some notFound, {| dep_Meta := []; dep_Spec := []; dep_Status := 0 |})
     end, w);
  ClientGetOCSInit _ _ w :=
    (match ocsinit w with
     | Some flag => (None, flag)
     | None => (Some notFound, false)
     end, w);
  IsNotFound e := match e with Foreign msg => bool_decide (msg = "not found") | _ => false end;
  SetOwnerReference sc meta := inr (c_Namespace sc :: meta);
  DeepEqual spec1 spec2 := bool_decide (spec1 = spec2);
  ClientCreate d w := (None, {| deployment := Some d; ocsinit := ocsinit w |});
  ClientUpdate d w := (None, {| deployment := Some d; ocsinit := ocsinit w |});
  ClientDelete d w := (None, {| deployment := None; ocsinit := ocsinit w |})
|}.

Definition cluster (enabled : bool) : Cluster :=
  {| c_Namespace := "openshift-storage"; c_EnableCephTools := enabled; c_Tolerations := [] |}.

Definition empty_api : Api := {| deployment := None; ocsinit := None |}.

(** A cluster that runs the tools with a spec of its own. *)
Definition stale_api : Api :=
  {| deployment := Some {| dep_Meta := ["someone"]; dep_Spec := []; dep_Status := 1 |};
     ocsinit := Some false |}.

End FixtureToolbox.

(** ** Basic facts *)

Ltac case_step :=
  match goal with
  | |- context [let '(_, _) := ?x in _] => destruct x eqn:?
  | |- context [match ?x with _ => _ end] => destruct x eqn:?
  | |- context [if ?x then _ else _] => destruct x eqn:?
  end.

Ltac cases := repeat (simpl in *; case_step); simpl in *.

Section Basics.
Context {World : Type} `{External World}.
Implicit Types (s : RBDMirrorStore World) (e : Env World).

Lemma allowed_elem (items : list string) (namespace : string) :
  allowed items namespace = true ↔ namespace ∈ items.
Proof.
  induction items as [|item rest IH]; simpl.
  - split; [discriminate | intros Hin; inversion Hin].
  - destruct (decide (item = namespace)) as [->|Hne].
    + split; [intros _; left | done].
    + rewrite IH. split; [by right | ].
      intros [?|?]%elem_of_cons; [congruence | done].
Qed.

Lemma emitted_app s s' (evs : list Event) :
  trace (env s') = trace (env s) ++ evs → emitted s s' = evs.
Proof. intros Heq. unfold emitted. rewrite Heq. by rewrite drop_app_length. Qed.

Lemma emitted_refl s : emitted s s = [].
Proof. apply emitted_app. by rewrite app_nil_r. Qed.

(** *** The calls that leave the process *)

Lemma secretsGet_trace namespace name e r e' :
  secretsGet namespace name e = (r, e') →
  trace e' = trace e ++ [EvSecretsGet namespace name].
Proof. unfold secretsGet. cases. by intros [= _ <-]. Qed.

Lemma configMapsGet_trace namespace name e r e' :
  configMapsGet namespace name e = (r, e') →
  trace e' = trace e ++ [EvConfigMapsGet namespace name].
Proof. unfold configMapsGet. cases. by intros [= _ <-]. Qed.

Lemma execCommand_trace command args e r e' :
  execCommand command args e = (r, e') →
  trace e' = trace e ++ [EvExec command args].
Proof. unfold execCommand. cases. by intros [= _ <-]. Qed.

(** *** [WithRBDCommandInput] *)

Lemma With_Store namespace s :
  Store (WithRBDCommandInput namespace s).2 = Store s.
Proof. unfold WithRBDCommandInput. by cases. Qed.

Lemma With_allowedNamespaces namespace s :
  allowedNamespaces (WithRBDCommandInput namespace s).2 = allowedNamespaces s.
Proof. unfold WithRBDCommandInput. by cases. Qed.

Lemma With_failure namespace s err s' :
  WithRBDCommandInput namespace s = (Some err, s') →
  rbdCommandInput s' = rbdCommandInput s.
Proof. unfold WithRBDCommandInput. cases; intros [= <- <-]; done. Qed.

Lemma With_success namespace s s' :
  WithRBDCommandInput namespace s = (None, s') →
  ∃ in_, rbdCommandInput s' = <[namespace := in_]> (rbdCommandInput s) ∧ id in_ = "admin".
Proof. unfold WithRBDCommandInput. cases; intros [= <-]; eauto. Qed.

Lemma With_trace namespace s :
  ∃ evs, trace (env (WithRBDCommandInput namespace s).2) = trace (env s) ++ evs
         ∧ forallb is_lookup evs = true.
Proof.
  unfold WithRBDCommandInput.
  destruct (negb _); [by exists []; rewrite app_nil_r|].
  destruct (secretsGet _ _ _) as [r e1] eqn:Hs. apply secretsGet_trace in Hs.
  destruct r as [err|secret]; [by eexists [_]|].
  destruct (_ !! _); [|by eexists [_]].
  destruct (configMapsGet _ _ _) as [r e2] eqn:Hc. apply configMapsGet_trace in Hc.
  rewrite Hs, <- app_assoc in Hc.
  cases; by eexists [_; _].
Qed.

(** *** [rbdImageStatus] *)

Lemma rbdImageStatus_trace in_ poolName e :
  ∃ evs, trace (rbdImageStatus in_ poolName e).2 = trace e ++ evs
         ∧ forallb is_exec evs = true.
Proof.
  unfold rbdImageStatus. destruct (decide _); [by exists []; rewrite app_nil_r|].
  destruct (execCommand _ _ _) as [[cmd err] e1] eqn:He. apply execCommand_trace in He.
  exists [EvExec "rbd" (rbdArgs in_ poolName)]. by destruct err.
Qed.

(** *** [attempt] *)

Lemma attempt_Store namespace poolName s :
  Store (attempt namespace poolName s).2 = Store s.
Proof.
  unfold attempt.
  destruct (rbdCommandInput s !! namespace) eqn:Hc.
  - rewrite Hc. by cases.
  - pose proof (With_Store namespace s) as HS.
    destruct (WithRBDCommandInput namespace s) as [[err|] s1]; [done|].
    by cases.
Qed.

Lemma attempt_allowedNamespaces namespace poolName s :
  allowedNamespaces (attempt namespace poolName s).2 = allowedNamespaces s.
Proof.
  unfold attempt.
  destruct (rbdCommandInput s !! namespace) eqn:Hc.
  - rewrite Hc. by cases.
  - pose proof (With_allowedNamespaces namespace s) as HS.
    destruct (WithRBDCommandInput namespace s) as [[err|] s1]; [done|].
    by cases.
Qed.

(** A resolution without error leaves an input for the namespace: the
    method call that follows has a receiver. *)
Lemma attempt_not_NilInput namespace poolName s :
  (attempt namespace poolName s).1 ≠ NilInput.
Proof.
  unfold attempt.
  destruct (rbdCommandInput s !! namespace) eqn:Hc.
  - rewrite Hc. by cases.
  - destruct (WithRBDCommandInput namespace s) as [[err|] s1] eqn:HW; [done|].
    apply With_success in HW as (in_ & -> & _).
    rewrite lookup_insert_eq. by cases.
Qed.

(** An input, once cached, stays as it is. *)
Lemma attempt_rbdCommandInput_stable namespace poolName s ns in_ :
  rbdCommandInput s !! ns = Some in_ →
  rbdCommandInput (attempt namespace poolName s).2 !! ns = Some in_.
Proof.
  intros Hns. unfold attempt.
  destruct (rbdCommandInput s !! namespace) eqn:Hc.
  - by cases.
  - destruct (WithRBDCommandInput namespace s) as [[err|] s1] eqn:HW.
    + apply With_failure in HW. simpl. by rewrite HW.
    + apply With_success in HW as (in' & HW & _).
      assert (rbdCommandInput s1 !! ns = Some in_) as Hs1.
      { rewrite HW, lookup_insert_ne; [done|congruence]. }
      by cases.
Qed.

Lemma attempt_trace namespace poolName s :
  ∃ evs, trace (env (attempt namespace poolName s).2) = trace (env s) ++ evs
         ∧ forallb is_external evs = true
         ∧ (is_Some (rbdCommandInput s !! namespace) → forallb is_exec evs = true).
Proof.
  assert (∀ evs, forallb is_exec evs = true → forallb is_external evs = true) as Hex.
  { intros evs. rewrite !forallb_forall. intros Hall ev Hev.
    specialize (Hall ev Hev). by destruct ev. }
  assert (∀ evs, forallb is_lookup evs = true → forallb is_external evs = true) as Hlk.
  { intros evs. rewrite !forallb_forall. intros Hall ev Hev.
    specialize (Hall ev Hev). by destruct ev. }
  unfold attempt.
  destruct (rbdCommandInput s !! namespace) as [in_|] eqn:Hc.
  - rewrite Hc.
    destruct (rbdImageStatus_trace in_ poolName (env s)) as (evs & Ht & Hall).
    destruct (rbdImageStatus in_ poolName (env s)) as [[st [err|]] e2]; simpl in *;
      exists evs; auto.
  - destruct (With_trace namespace s) as (evs1 & Ht1 & Hall1).
    destruct (WithRBDCommandInput namespace s) as [[err|] s1]; simpl in *.
    { exists evs1. split_and!; auto. by intros [? ?]. }
    destruct (rbdCommandInput s1 !! namespace) as [in_|]; simpl.
    2:{ exists evs1. split_and!; auto. by intros [? ?]. }
    destruct (rbdImageStatus_trace in_ poolName (env s1)) as (evs2 & Ht2 & Hall2).
    destruct (rbdImageStatus in_ poolName (env s1)) as [[st [err|]] e2]; simpl in *;
      exists (evs1 ++ evs2); rewrite Ht2, Ht1, <- app_assoc;
      (split_and!; [done | rewrite forallb_app; auto using andb_true_intro | by intros [? ?]]).
Qed.

(** *** [Add] and [Resync_body] in terms of [attempt] *)

Lemma Add_attempt (pool : CephBlockPool) s :
  Enabled (Mirroring (Spec pool)) = true →
  Add (ObjCephBlockPool pool) s =
    match attempt (Namespace (Meta pool)) (Name (Meta pool)) s with
    | (ResolveFailed err, s1) =>
      (Done (Some (RbdCommandInputError (Namespace (Meta pool)) (Name (Meta pool)) err)),
       note (EvError (LogInitFailed (Namespace (Meta pool)) (Name (Meta pool)) err)) s1)
    | (FetchFailed err, s1) => (Done (Some (RbdCommandError err)), s1)
    | (Fetched mirrorStatus, s1) =>
      (Done None,
       note EvUnlock
         (note (EvStoreSet (GetUID (Meta pool)))
            (set_Store
               (<[GetUID (Meta pool) :=
                    record (Name (Meta pool)) (Namespace (Meta pool)) mirrorStatus]> (Store s1))
               (note EvLock s1))))
    | (NilInput, s1) => (Panic, s1)
    end.
Proof.
  intros Hen. unfold Add, attempt, record. simpl. rewrite Hen. simpl.
  destruct (match rbdCommandInput s !! Namespace (Meta pool) with
            | Some _ => _ | None => _ end) as [[err|] s1]; [done|].
  destruct (rbdCommandInput s1 !! _) as [in_|]; [|done].
  by destruct (rbdImageStatus _ _ _) as [[st [err|]] e2].
Qed.

Lemma Resync_body_attempt poolUUID (poolStatusVerbose : RBDMirrorPoolStatusVerbose) s :
  Resync_body poolUUID poolStatusVerbose s =
    match attempt (PoolNamespace poolStatusVerbose) (PoolName poolStatusVerbose) s with
    | (ResolveFailed err, s1) =>
      (Done (),
       note (EvError (LogInitFailed (PoolNamespace poolStatusVerbose)
                        (PoolName poolStatusVerbose) err)) s1)
    | (FetchFailed err, s1) => (Done (), note (EvError (LogRbdError err)) s1)
    | (Fetched mirrorStatus, s1) =>
      (Done (),
       note (EvStoreSet poolUUID)
         (set_Store
            (<[poolUUID := record (PoolName poolStatusVerbose)
                             (PoolNamespace poolStatusVerbose) mirrorStatus]> (Store s1))
            s1))
    | (NilInput, s1) => (Panic, s1)
    end.
Proof.
  unfold Resync_body, attempt, record.
  destruct (match rbdCommandInput s !! PoolNamespace poolStatusVerbose with
            | Some _ => _ | None => _ end) as [[err|] s1]; [done|].
  destruct (rbdCommandInput s1 !! _) as [in_|]; [|done].
  by destruct (rbdImageStatus _ _ _) as [[st [err|]] e2].
Qed.

End Basics.

(** ** The credential guard and the status command *)

Section Guards.
Context {World : Type} `{External World}.
Implicit Types (s : RBDMirrorStore World) (e : Env World).

(** C6. For a namespace that is not in the allow-list,
    [WithRBDCommandInput] returns the not-allowed error and changes
    nothing: the store, the input cache and the world are as before, and
    no secret or configmap was read. *)
Theorem WithRBDCommandInput_not_allowed (namespace : string) s :
  namespace ∉ allowedNamespaces s →
  WithRBDCommandInput namespace s = (Some (NotAllowedNamespace namespace), s)
  ∧ emitted s (WithRBDCommandInput namespace s).2 = []
  ∧ world (env (WithRBDCommandInput namespace s).2) = world (env s)
  ∧ rbdCommandInput (WithRBDCommandInput namespace s).2 = rbdCommandInput s.
Proof.
  intros Hout.
  assert (WithRBDCommandInput namespace s = (Some (NotAllowedNamespace namespace), s)) as ->.
  { unfold WithRBDCommandInput.
    destruct (allowed (allowedNamespaces s) namespace) eqn:Hal; [|done].
    by apply allowed_elem in Hal. }
  simpl. by rewrite emitted_refl.
Qed.

(** C9. [rbdImageStatus] refuses an input whose monitor, id and key are
    all empty, without running anything; for every other input it runs
    the [rbd] command once, and its result is the command's error or the
    decoding of the command's output. *)
Theorem rbdImageStatus_one_process (in_ : rbdCommandInputT) (poolName : string) e :
  (monitor in_ = "" ∧ id in_ = "" ∧ key in_ = "" →
     rbdImageStatus in_ poolName e = ((zeroStatus, Some IncompleteCredentials), e))
  ∧ (¬ (monitor in_ = "" ∧ id in_ = "" ∧ key in_ = "") →
     ∃ out err w,
       CombinedOutput "rbd" (rbdArgs in_ poolName) (world e) = ((out, err), w)
       ∧ (rbdImageStatus in_ poolName e).2 =
           {| world := w; trace := trace e ++ [EvExec "rbd" (rbdArgs in_ poolName)] |}
       ∧ (rbdImageStatus in_ poolName e).1 =
           match err with
           | Some err => (zeroStatus, Some err)
           | None => UnmarshalStatus out
           end).
Proof.
  unfold rbdImageStatus, execCommand. split; intros Hin.
  - by destruct (decide _).
  - destruct (decide _); [done|].
    destruct (CombinedOutput _ _ _) as [[out err] w].
    exists out, err, w. by destruct err.
Qed.

End Guards.

Lemma WithRBDCommandInput_not_allowed_witness :
  WithRBDCommandInput "kube-system" (Fixture.store1 []) =
    (Some (NotAllowedNamespace "kube-system"), Fixture.store1 [])
  ∧ emitted (Fixture.store1 []) (WithRBDCommandInput "kube-system" (Fixture.store1 [])).2 = []
  ∧ world (env (WithRBDCommandInput "kube-system" (Fixture.store1 [])).2) =
      world (env (Fixture.store1 []))
  ∧ rbdCommandInput (WithRBDCommandInput "kube-system" (Fixture.store1 [])).2 =
      rbdCommandInput (Fixture.store1 []).
Proof.
  apply (WithRBDCommandInput_not_allowed "kube-system" (Fixture.store1 [])).
  simpl. intros Hin. apply allowed_elem in Hin. vm_compute in Hin. discriminate Hin.
Defined.

Lemma rbdImageStatus_one_process_witness :
  rbdImageStatus {| monitor := ""; id := ""; key := "" |} "pool1"
      (env (Fixture.store1 [(Fixture.statusJSON "OK", None)])) =
    ((zeroStatus, Some IncompleteCredentials),
     env (Fixture.store1 [(Fixture.statusJSON "OK", None)]))
  ∧ ∃ out err w,
      CombinedOutput "rbd" (rbdArgs Fixture.admin1 "pool1")
          (world (env (Fixture.store1 [(Fixture.statusJSON "OK", None)]))) = ((out, err), w)
      ∧ (rbdImageStatus Fixture.admin1 "pool1"
           (env (Fixture.store1 [(Fixture.statusJSON "OK", None)]))).2 =
          {| world := w; trace := [EvExec "rbd" (rbdArgs Fixture.admin1 "pool1")] |}
      ∧ (rbdImageStatus Fixture.admin1 "pool1"
           (env (Fixture.store1 [(Fixture.statusJSON "OK", None)]))).1 =
          match err with
          | Some err => (zeroStatus, Some err)
          | None => UnmarshalStatus out
          end.
Proof.
  split.
  - apply (rbdImageStatus_one_process {| monitor := ""; id := ""; key := "" |} "pool1").
    simpl. auto.
  - apply (rbdImageStatus_one_process Fixture.admin1 "pool1"
             (env (Fixture.store1 [(Fixture.statusJSON "OK", None)]))).
    simpl. intros [Hm _]. discriminate Hm.
Defined.

(** ** [Add], [Update] and [Delete] *)

Section AddDelete.
Context {World : Type} `{External World}.
Implicit Types (s : RBDMirrorStore World) (e : Env World).

(** Where the outcomes of [attempt] come from. *)
Lemma attempt_resolve_failed namespace poolName s err s1 :
  rbdCommandInput s !! namespace = None →
  WithRBDCommandInput namespace s = (Some err, s1) →
  attempt namespace poolName s = (ResolveFailed err, s1).
Proof. intros Hc HW. unfold attempt. by rewrite Hc, HW. Qed.

Lemma attempt_cached namespace poolName s in_ :
  rbdCommandInput s !! namespace = Some in_ →
  attempt namespace poolName s =
    match rbdImageStatus in_ poolName (env s) with
    | ((_, Some err), e2) => (FetchFailed err, set_env e2 s)
    | ((mirrorStatus, None), e2) => (Fetched mirrorStatus, set_env e2 s)
    end.
Proof. intros Hc. unfold attempt. by rewrite Hc, Hc. Qed.

Lemma attempt_resolved namespace poolName s s1 :
  rbdCommandInput s !! namespace = None →
  WithRBDCommandInput namespace s = (None, s1) →
  ∃ in_, rbdCommandInput s1 !! namespace = Some in_ ∧
    attempt namespace poolName s =
      match rbdImageStatus in_ poolName (env s1) with
      | ((_, Some err), e2) => (FetchFailed err, set_env e2 s1)
      | ((mirrorStatus, None), e2) => (Fetched mirrorStatus, set_env e2 s1)
      end.
Proof.
  intros Hc HW. unfold attempt. rewrite Hc, HW.
  apply With_success in HW as (in_ & -> & _).
  exists in_. by rewrite lookup_insert_eq.
Qed.

(** C4. For a pool whose mirroring is off, [Add] and [Update] return nil;
    the store, the input cache and the world are as before, and the only
    thing the call did was to log that it skipped the pool: no secret or
    configmap was read and no command was run. *)
Theorem Add_mirroring_disabled (pool : CephBlockPool) s :
  Enabled (Mirroring (Spec pool)) = false →
  ∃ s',
    Add (ObjCephBlockPool pool) s = (Done None, s')
    ∧ Update (ObjCephBlockPool pool) s = (Done None, s')
    ∧ Store s' = Store s
    ∧ rbdCommandInput s' = rbdCommandInput s
    ∧ world (env s') = world (env s)
    ∧ emitted s s' = [EvInfo (LogSkipDisabled (Namespace (Meta pool)) (Name (Meta pool)))]
    ∧ filter is_external (emitted s s') = [].
Proof.
  intros Hoff. unfold Update, Add. simpl. rewrite Hoff. simpl.
  eexists. split_and!; try reflexivity.
  - by apply emitted_app.
  - by rewrite (emitted_app _ _ [EvInfo (LogSkipDisabled (Namespace (Meta pool))
                                           (Name (Meta pool)))]).
Qed.

(** C3. Whenever [Add] (or [Update]) returns an error, the map of pool
    records is the one it started from.  The errors are those of the
    claim: the object is not a pool, the credentials of the namespace do
    not resolve, or the status is not fetched, and each of the three makes
    [Add] return an error. *)
Theorem Add_failure_keeps_Store (obj : Obj) s :
  Update obj s = Add obj s
  ∧ (∀ err s', Add obj s = (Done (Some err), s') →
       Store s' = Store s
       ∧ (err = NotObject ∨ err = UnexpectedType
          ∨ ∃ pool cause,
              obj = ObjCephBlockPool pool
              ∧ ((err = RbdCommandInputError (Namespace (Meta pool)) (Name (Meta pool)) cause
                  ∧ (attempt (Namespace (Meta pool)) (Name (Meta pool)) s).1
                      = ResolveFailed cause)
                 ∨ (err = RbdCommandError cause
                    ∧ (attempt (Namespace (Meta pool)) (Name (Meta pool)) s).1
                        = FetchFailed cause))))
  ∧ ((∀ pool, obj ≠ ObjCephBlockPool pool) →
       ∃ err, Add obj s = (Done (Some err), s))
  ∧ (∀ pool cause,
       obj = ObjCephBlockPool pool → Enabled (Mirroring (Spec pool)) = true →
       (attempt (Namespace (Meta pool)) (Name (Meta pool)) s).1 = ResolveFailed cause →
       ∃ s', Add obj s =
               (Done (Some (RbdCommandInputError (Namespace (Meta pool))
                              (Name (Meta pool)) cause)), s')
             ∧ Store s' = Store s)
  ∧ (∀ pool cause,
       obj = ObjCephBlockPool pool → Enabled (Mirroring (Spec pool)) = true →
       (attempt (Namespace (Meta pool)) (Name (Meta pool)) s).1 = FetchFailed cause →
       ∃ s', Add obj s = (Done (Some (RbdCommandError cause)), s')
             ∧ Store s' = Store s).
Proof.
  split_and!; [done| | | |].
  - intros err s' HA. destruct obj as [pool|meta|]; simpl in HA.
    + destruct (Enabled (Mirroring (Spec pool))) eqn:Hen.
      * rewrite (Add_attempt pool s Hen) in HA.
        pose proof (attempt_Store (Namespace (Meta pool)) (Name (Meta pool)) s) as HS.
        destruct (attempt _ _ s) as [[cause|cause|st|] s1] eqn:Hat; simpl in *;
          simplify_eq/=; (split; [done|]); right; right; exists pool, cause;
          rewrite Hat; simpl; eauto.
      * unfold Add in HA. simpl in HA. rewrite Hen in HA. simplify_eq/=.
    + unfold Add in HA. simplify_eq/=. auto.
    + unfold Add in HA. simplify_eq/=. auto.
  - intros Hnot. destruct obj as [pool|meta|]; [by destruct (Hnot pool)| |]; by eexists.
  - intros pool cause -> Hen Hat. rewrite (Add_attempt pool s Hen).
    pose proof (attempt_Store (Namespace (Meta pool)) (Name (Meta pool)) s) as HS.
    destruct (attempt _ _ s) as [a s1]; simpl in *; subst a. by eexists.
  - intros pool cause -> Hen Hat. rewrite (Add_attempt pool s Hen).
    pose proof (attempt_Store (Namespace (Meta pool)) (Name (Meta pool)) s) as HS.
    destruct (attempt _ _ s) as [a s1]; simpl in *; subst a. by eexists.
Qed.

(** C8. [Delete] returns the accessor's error, and changes nothing, for an
    argument that has no object metadata.  For every other argument it
    returns nil and removes the entry of the argument's UID, with the
    mutex held; when the UID has no entry the map is as before.  After
    [Add] and then [Delete] of objects with one UID, the UID has no
    entry. *)
Theorem Delete_removes_entry (obj : Obj) s :
  (∀ err, Accessor obj = inl err →
     err = NotObject ∧ Delete obj s = (Done (Some err), s))
  ∧ (∀ o, Accessor obj = inr o →
       ∃ s', Delete obj s = (Done None, s')
         ∧ Store s' = delete (GetUID o) (Store s)
         ∧ Store s' !! GetUID o = None
         ∧ (∀ uid, uid ≠ GetUID o → Store s' !! uid = Store s !! uid)
         ∧ (Store s !! GetUID o = None → Store s' = Store s)
         ∧ rbdCommandInput s' = rbdCommandInput s
         ∧ world (env s') = world (env s)
         ∧ emitted s s' = [EvLock; EvStoreDelete (GetUID o); EvUnlock]
         ∧ well_locked false (emitted s s') = true)
  ∧ (∀ o added o' s0,
       Accessor obj = inr o → Accessor added = inr o' → GetUID o' = GetUID o →
       (Delete obj (Add added s0).2).1 = Done None
       ∧ Store (Delete obj (Add added s0).2).2 !! GetUID o' = None).
Proof.
  split_and!.
  - intros err Hacc. destruct obj; simplify_eq/=. done.
  - intros o Hacc. unfold Delete. rewrite Hacc. eexists. split; [reflexivity|].
    simpl. split_and!; try done.
    + apply lookup_delete_eq.
    + intros uid Hne. by rewrite lookup_delete_ne.
    + apply delete_id.
    + apply emitted_app. simpl. by rewrite <- !app_assoc.
    + erewrite emitted_app; [|simpl; by rewrite <- !app_assoc]. done.
  - intros o added o' s0 Hacc _ ->. unfold Delete. rewrite Hacc. simpl.
    split; [done|]. apply lookup_delete_eq.
Qed.

End AddDelete.

Lemma Add_mirroring_disabled_witness :
  (Add (Fixture.pool "pool1" "ns1" "u1" false) (Fixture.store2 [])).1 = Done None
  ∧ Store (Add (Fixture.pool "pool1" "ns1" "u1" false) (Fixture.store2 [])).2
    = Store (Fixture.store2 [])
  ∧ filter is_external
      (emitted (Fixture.store2 [])
         (Add (Fixture.pool "pool1" "ns1" "u1" false) (Fixture.store2 [])).2) = [].
Proof.
  destruct (Add_mirroring_disabled (Fixture.cephBlockPool "pool1" "ns1" "u1" false)
              (Fixture.store2 []) eq_refl)
    as (s' & HA & _ & HS & _ & _ & _ & Hev).
  unfold Fixture.pool. rewrite HA. simpl. by split_and!.
Defined.

Lemma Add_failure_keeps_Store_witness :
  Add (Fixture.pool "pool1" "ns1" "u1" true) (Fixture.store2 []) =
    (Done (Some (RbdCommandError (Foreign "exit status 1"))),
     (Add (Fixture.pool "pool1" "ns1" "u1" true) (Fixture.store2 [])).2)
  ∧ Store (Add (Fixture.pool "pool1" "ns1" "u1" true) (Fixture.store2 [])).2
    = Store (Fixture.store2 []).
Proof.
  assert (Add (Fixture.pool "pool1" "ns1" "u1" true) (Fixture.store2 []) =
            (Done (Some (RbdCommandError (Foreign "exit status 1"))),
             (Add (Fixture.pool "pool1" "ns1" "u1" true) (Fixture.store2 [])).2)) as HA.
  { vm_compute. reflexivity. }
  split; [exact HA|].
  exact (proj1 (proj1 (proj2 (Add_failure_keeps_Store
                                (Fixture.pool "pool1" "ns1" "u1" true) (Fixture.store2 [])))
                  _ _ HA)).
Defined.

Lemma Delete_removes_entry_witness :
  Store (Fixture.store2 []) !! "u1" = Some (record "pool1" "ns1" (Fixture.statusWith "OK"))
  ∧ (Delete (Fixture.pool "pool1" "ns1" "u1" true) (Fixture.store2 [])).1 = Done None
  ∧ Store (Delete (Fixture.pool "pool1" "ns1" "u1" true) (Fixture.store2 [])).2 !! "u1" = None
  ∧ Delete ObjNoMeta (Fixture.store2 []) = (Done (Some NotObject), Fixture.store2 [])
  ∧ Store (Add (Fixture.pool "pool3" "ns1" "u3" true)
             (Fixture.store2 [(Fixture.statusJSON "OK", None)])).2 !! "u3"
    = Some (record "pool3" "ns1" (Fixture.statusWith "OK"))
  ∧ Store (Delete (Fixture.pool "pool3" "ns1" "u3" true)
             (Add (Fixture.pool "pool3" "ns1" "u3" true)
                (Fixture.store2 [(Fixture.statusJSON "OK", None)])).2).2 !! "u3" = None.
Proof.
  split; [vm_compute; reflexivity|].
  destruct (Delete_removes_entry (Fixture.pool "pool1" "ns1" "u1" true) (Fixture.store2 []))
    as (_ & Hdel & _).
  destruct (Hdel _ eq_refl) as (s' & HD & _ & Hgone & _).
  rewrite HD. simpl. split_and!; [done|exact Hgone| | |].
  - exact (proj2 (proj1 (Delete_removes_entry ObjNoMeta (Fixture.store2 [])) NotObject eq_refl)).
  - vm_compute. reflexivity.
  - exact (proj2 (proj2 (proj2 (Delete_removes_entry (Fixture.pool "pool3" "ns1" "u3" true)
                                   (Fixture.store2 [])))
                    _ (Fixture.pool "pool3" "ns1" "u3" true) _
                    (Fixture.store2 [(Fixture.statusJSON "OK", None)])
                    eq_refl eq_refl eq_refl)).
Defined.

(** ** Resolving the credentials of a namespace *)

Section Resolve.
Context {World : Type} `{External World}.
Implicit Types (s : RBDMirrorStore World) (e : Env World).

(** When both objects are read and have their fields, the result depends
    on the decoded configuration alone. *)
Lemma With_reads namespace s secret key configmap data w1 w2 :
  namespace ∈ allowedNamespaces s →
  SecretsGet namespace "rook-ceph-mon" (world (env s)) = (inr secret, w1) →
  secret_Data secret !! "ceph-secret" = Some key →
  ConfigMapsGet namespace "rook-ceph-csi-config" w1 = (inr configmap, w2) →
  configmap_Data configmap !! "csi-cluster-config-json" = Some data →
  WithRBDCommandInput namespace s =
    match UnmarshalClusterConfig data with
    | (_, Some err) =>
      (Some (ConfigParseError namespace err), set_env (after_reads namespace w2 s) s)
    | ([], None) => (Some (NoClusterConfig namespace), set_env (after_reads namespace w2 s) s)
    | (clusterConfig0 :: _, None) =>
      match Monitors clusterConfig0 with
      | [] => (Some (NoMonitors namespace), set_env (after_reads namespace w2 s) s)
      | monitors0 :: _ =>
        (None,
         set_rbdCommandInput
           (<[namespace := {| monitor := monitors0; id := "admin"; key := key |}]>
              (rbdCommandInput s))
           (set_env (after_reads namespace w2 s) s))
      end
    end.
Proof.
  intros Hal Hs Hk Hc Hd. apply allowed_elem in Hal.
  unfold WithRBDCommandInput, secretsGet, configMapsGet, after_reads.
  rewrite Hal. simpl. rewrite Hs, Hk. simpl. rewrite Hc, Hd, <- app_assoc. simpl.
  destruct (UnmarshalClusterConfig data) as [[|c rest] [err|]]; try done.
Qed.

Lemma With_first_event namespace s :
  namespace ∈ allowedNamespaces s →
  ∃ evs, emitted s (WithRBDCommandInput namespace s).2 =
           EvSecretsGet namespace "rook-ceph-mon" :: evs.
Proof.
  intros Hal. apply allowed_elem in Hal. unfold WithRBDCommandInput. rewrite Hal. simpl.
  destruct (secretsGet _ _ _) as [r e1] eqn:Hs. apply secretsGet_trace in Hs.
  destruct r as [err|secret]; [exists []; by apply emitted_app|].
  destruct (_ !! _); [|exists []; by apply emitted_app].
  destruct (configMapsGet _ _ _) as [r e2] eqn:Hc. apply configMapsGet_trace in Hc.
  rewrite Hs, <- app_assoc in Hc.
  exists [EvConfigMapsGet namespace "rook-ceph-csi-config"].
  apply emitted_app. cases; done.
Qed.

Lemma emitted_trans s1 s2 s3 evs1 evs2 :
  trace (env s2) = trace (env s1) ++ evs1 →
  trace (env s3) = trace (env s2) ++ evs2 →
  emitted s1 s3 = evs1 ++ evs2.
Proof. intros H1 H2. apply emitted_app. by rewrite H2, H1, app_assoc. Qed.

Lemma filter_lookup_exec (evs : list Event) :
  forallb is_exec evs = true → filter is_lookup evs = [].
Proof.
  induction evs as [|ev evs IH]; [done|]. simpl. intros [Hev Hall]%andb_prop.
  rewrite filter_cons. destruct ev; try done; simpl; auto.
Qed.

(** What [Add] emits besides the events of its [attempt]. *)
Lemma Add_trace (pool : CephBlockPool) s :
  Enabled (Mirroring (Spec pool)) = true →
  ∃ evs, trace (env (Add (ObjCephBlockPool pool) s).2) =
           trace (env (attempt (Namespace (Meta pool)) (Name (Meta pool)) s).2) ++ evs
         ∧ filter is_external evs = [].
Proof.
  intros Hen. rewrite (Add_attempt pool s Hen).
  destruct (attempt _ _ s) as [[cause|cause|st|] s1]; simpl.
  - by eexists [_].
  - exists []. by rewrite app_nil_r.
  - eexists [_; _; _]. by rewrite <- !app_assoc.
  - exists []. by rewrite app_nil_r.
Qed.

Lemma Resync_body_trace poolUUID (poolStatusVerbose : RBDMirrorPoolStatusVerbose) s :
  ∃ evs, trace (env (Resync_body poolUUID poolStatusVerbose s).2) =
           trace (env (attempt (PoolNamespace poolStatusVerbose)
                         (PoolName poolStatusVerbose) s).2) ++ evs
         ∧ filter is_external evs = [].
Proof.
  rewrite Resync_body_attempt.
  destruct (attempt _ _ s) as [[cause|cause|st|] s1]; simpl.
  - by eexists [_].
  - by eexists [_].
  - by eexists [_].
  - exists []. by rewrite app_nil_r.
Qed.

Lemma filter_lookup_external (evs : list Event) :
  filter is_external evs = [] → filter is_lookup evs = [].
Proof.
  induction evs as [|ev evs IH]; [done|]. rewrite !filter_cons.
  destruct ev; simpl; try done; auto.
Qed.

Lemma Add_disabled (pool : CephBlockPool) s :
  Enabled (Mirroring (Spec pool)) = false →
  Add (ObjCephBlockPool pool) s =
    (Done None,
     note (EvInfo (LogSkipDisabled (Namespace (Meta pool)) (Name (Meta pool)))) s).
Proof. intros Hoff. unfold Add. simpl. by rewrite Hoff. Qed.

Lemma attempt_cached_no_lookup namespace poolName s :
  is_Some (rbdCommandInput s !! namespace) →
  rbdCommandInput (attempt namespace poolName s).2 = rbdCommandInput s
  ∧ ∃ evs, trace (env (attempt namespace poolName s).2) = trace (env s) ++ evs
           ∧ filter is_lookup evs = [].
Proof.
  intros Hc. split.
  - destruct Hc as [in_ Hc]. rewrite (attempt_cached _ _ _ _ Hc).
    by destruct (rbdImageStatus _ _ _) as [[st [err|]] e2].
  - destruct (attempt_trace namespace poolName s) as (evs & Ht & _ & Hex).
    exists evs. split; [done|]. by apply filter_lookup_exec, Hex.
Qed.

Lemma Add_cached_no_lookup (pool : CephBlockPool) s :
  is_Some (rbdCommandInput s !! Namespace (Meta pool)) →
  rbdCommandInput (Add (ObjCephBlockPool pool) s).2 = rbdCommandInput s
  ∧ filter is_lookup (emitted s (Add (ObjCephBlockPool pool) s).2) = [].
Proof.
  intros Hc. destruct (Enabled (Mirroring (Spec pool))) eqn:Hen.
  - destruct (attempt_cached_no_lookup _ (Name (Meta pool)) s Hc) as (Hin & evs1 & Ht1 & Hf1).
    destruct (Add_trace pool s Hen) as (evs2 & Ht2 & Hf2).
    split.
    + rewrite (Add_attempt pool s Hen).
      by destruct (attempt _ _ s) as [[cause|cause|st|] s1].
    + rewrite (emitted_trans _ _ _ _ _ Ht1 Ht2), filter_app, Hf1.
      by rewrite (filter_lookup_external _ Hf2).
  - rewrite (Add_disabled pool s Hen). simpl. split; [done|].
    by rewrite (emitted_app _ _ [EvInfo (LogSkipDisabled (Namespace (Meta pool))
                                           (Name (Meta pool)))]).
Qed.

Lemma Resync_body_cached_no_lookup poolUUID (poolStatusVerbose : RBDMirrorPoolStatusVerbose) s :
  is_Some (rbdCommandInput s !! PoolNamespace poolStatusVerbose) →
  rbdCommandInput (Resync_body poolUUID poolStatusVerbose s).2 = rbdCommandInput s
  ∧ filter is_lookup (emitted s (Resync_body poolUUID poolStatusVerbose s).2) = [].
Proof.
  intros Hc.
  destruct (attempt_cached_no_lookup _ (PoolName poolStatusVerbose) s Hc)
    as (Hin & evs1 & Ht1 & Hf1).
  destruct (Resync_body_trace poolUUID poolStatusVerbose s) as (evs2 & Ht2 & Hf2).
  split.
  - rewrite Resync_body_attempt.
    by destruct (attempt _ _ s) as [[cause|cause|st|] s1].
  - rewrite (emitted_trans _ _ _ _ _ Ht1 Ht2), filter_app, Hf1.
    by rewrite (filter_lookup_external _ Hf2).
Qed.

Lemma attempt_uncached_first_event namespace poolName s :
  rbdCommandInput s !! namespace = None →
  namespace ∈ allowedNamespaces s →
  ∃ evs, emitted s (attempt namespace poolName s).2 =
           EvSecretsGet namespace "rook-ceph-mon" :: evs.
Proof.
  intros Hc Hal. destruct (With_first_event namespace s Hal) as (evs1 & Hev1).
  destruct (With_trace namespace s) as (evs1' & Ht1 & _).
  rewrite (emitted_app _ _ _ Ht1) in Hev1. subst evs1'.
  unfold attempt. rewrite Hc.
  destruct (WithRBDCommandInput namespace s) as [[err|] s1]; simpl in *.
  { exists evs1. by apply emitted_app. }
  destruct (rbdCommandInput s1 !! namespace) as [in_|]; simpl.
  2:{ exists evs1. by apply emitted_app. }
  destruct (rbdImageStatus_trace in_ poolName (env s1)) as (evs2 & Ht2 & _).
  exists (evs1 ++ evs2).
  destruct (rbdImageStatus in_ poolName (env s1)) as [[st [err|]] e2]; simpl in *;
    apply emitted_app; simpl; by rewrite Ht2, Ht1, <- app_assoc.
Qed.

(** C5. When the namespace is allowed, the secret and the configmap are
    read and have their fields, and the configuration decodes to a
    sequence whose first record has a monitor, [WithRBDCommandInput]
    stores the input (first monitor of the first record, ["admin"], the
    secret's key) under the namespace.  The store looks a namespace up
    before it resolves it: with an input cached, [Add] and the loop of
    [Resync] read no secret and no configmap, and leave the cache as it is.
    A resolution that fails caches nothing, and the next [Add] for the
    namespace starts the lookup again. *)
Theorem WithRBDCommandInput_caches (namespace : string) s
    (secret : Secret) (key : string) (configmap : ConfigMap) (data : string) (w1 w2 : World)
    (clusterConfig0 : csiClusterConfig) (clusterConfig : list csiClusterConfig)
    (monitors0 : string) (monitors : list string) :
  namespace ∈ allowedNamespaces s →
  SecretsGet namespace "rook-ceph-mon" (world (env s)) = (inr secret, w1) →
  secret_Data secret !! "ceph-secret" = Some key →
  ConfigMapsGet namespace "rook-ceph-csi-config" w1 = (inr configmap, w2) →
  configmap_Data configmap !! "csi-cluster-config-json" = Some data →
  UnmarshalClusterConfig data = (clusterConfig0 :: clusterConfig, None) →
  Monitors clusterConfig0 = monitors0 :: monitors →
  (∃ s',
     WithRBDCommandInput namespace s = (None, s')
     ∧ rbdCommandInput s' =
         <[namespace := {| monitor := monitors0; id := "admin"; key := key |}]>
           (rbdCommandInput s)
     ∧ Store s' = Store s
     ∧ emitted s s' = [EvSecretsGet namespace "rook-ceph-mon";
                       EvConfigMapsGet namespace "rook-ceph-csi-config"])
  ∧ (∀ (pool : CephBlockPool) s2,
       Namespace (Meta pool) = namespace →
       is_Some (rbdCommandInput s2 !! namespace) →
       rbdCommandInput (Add (ObjCephBlockPool pool) s2).2 = rbdCommandInput s2
       ∧ filter is_lookup (emitted s2 (Add (ObjCephBlockPool pool) s2).2) = [])
  ∧ (∀ poolUUID (poolStatusVerbose : RBDMirrorPoolStatusVerbose) s2,
       PoolNamespace poolStatusVerbose = namespace →
       is_Some (rbdCommandInput s2 !! namespace) →
       rbdCommandInput (Resync_body poolUUID poolStatusVerbose s2).2 = rbdCommandInput s2
       ∧ filter is_lookup (emitted s2 (Resync_body poolUUID poolStatusVerbose s2).2) = [])
  ∧ (∀ s2 err s2',
       WithRBDCommandInput namespace s2 = (Some err, s2') →
       rbdCommandInput s2' = rbdCommandInput s2)
  ∧ (∀ (pool : CephBlockPool) s2,
       Namespace (Meta pool) = namespace →
       Enabled (Mirroring (Spec pool)) = true →
       rbdCommandInput s2 !! namespace = None →
       namespace ∈ allowedNamespaces s2 →
       ∃ evs, emitted s2 (Add (ObjCephBlockPool pool) s2).2 =
                EvSecretsGet namespace "rook-ceph-mon" :: evs).
Proof.
  intros Hal Hs Hk Hc Hd Hu Hm. split_and!.
  - rewrite (With_reads _ _ _ _ _ _ _ _ Hal Hs Hk Hc Hd), Hu, Hm.
    eexists. split; [reflexivity|]. split_and!; try done.
    by apply emitted_app.
  - intros pool s2 <- Hin. by apply Add_cached_no_lookup.
  - intros poolUUID v s2 <- Hin. by apply Resync_body_cached_no_lookup.
  - intros s2 err s2' HW. by apply With_failure in HW.
  - intros pool s2 <- Hen Hnone Hal2.
    destruct (attempt_uncached_first_event _ (Name (Meta pool)) s2 Hnone Hal2) as (evs1 & Hev1).
    destruct (attempt_trace (Namespace (Meta pool)) (Name (Meta pool)) s2) as (evs1' & Ht1 & _).
    rewrite (emitted_app _ _ _ Ht1) in Hev1. subst evs1'.
    destruct (Add_trace pool s2 Hen) as (evs2 & Ht2 & _).
    exists (evs1 ++ evs2). by rewrite (emitted_trans _ _ _ _ _ Ht1 Ht2).
Qed.

(** C7. With the namespace allowed and both objects read:
    [WithRBDCommandInput] returns the parse error when the configuration
    does not decode, the no-cluster-config error when it decodes to an
    empty sequence, and the no-monitors error when the first record has no
    monitor; none of these stores an input.  Otherwise the stored input
    has the first monitor of the first record, and two configurations
    that agree on it store the same input, whatever else they hold. *)
Theorem WithRBDCommandInput_first_monitor (namespace : string) s
    (secret : Secret) (key : string) (configmap : ConfigMap) (data : string) (w1 w2 : World) :
  namespace ∈ allowedNamespaces s →
  SecretsGet namespace "rook-ceph-mon" (world (env s)) = (inr secret, w1) →
  secret_Data secret !! "ceph-secret" = Some key →
  ConfigMapsGet namespace "rook-ceph-csi-config" w1 = (inr configmap, w2) →
  configmap_Data configmap !! "csi-cluster-config-json" = Some data →
  (∀ partial err,
     UnmarshalClusterConfig data = (partial, Some err) →
     WithRBDCommandInput namespace s =
       (Some (ConfigParseError namespace err), set_env (after_reads namespace w2 s) s))
  ∧ (UnmarshalClusterConfig data = ([], None) →
     WithRBDCommandInput namespace s =
       (Some (NoClusterConfig namespace), set_env (after_reads namespace w2 s) s))
  ∧ (∀ clusterConfig0 clusterConfig,
       UnmarshalClusterConfig data = (clusterConfig0 :: clusterConfig, None) →
       Monitors clusterConfig0 = [] →
       WithRBDCommandInput namespace s =
         (Some (NoMonitors namespace), set_env (after_reads namespace w2 s) s))
  ∧ (∀ clusterConfig0 clusterConfig monitors0 monitors,
       UnmarshalClusterConfig data = (clusterConfig0 :: clusterConfig, None) →
       Monitors clusterConfig0 = monitors0 :: monitors →
       WithRBDCommandInput namespace s =
         (None,
          set_rbdCommandInput
            (<[namespace := {| monitor := monitors0; id := "admin"; key := key |}]>
               (rbdCommandInput s))
            (set_env (after_reads namespace w2 s) s))
       ∧ ∀ s2 secret2 configmap2 data2 v1 v2 other others more,
           namespace ∈ allowedNamespaces s2 →
           rbdCommandInput s2 = rbdCommandInput s →
           SecretsGet namespace "rook-ceph-mon" (world (env s2)) = (inr secret2, v1) →
           secret_Data secret2 !! "ceph-secret" = Some key →
           ConfigMapsGet namespace "rook-ceph-csi-config" v1 = (inr configmap2, v2) →
           configmap_Data configmap2 !! "csi-cluster-config-json" = Some data2 →
           UnmarshalClusterConfig data2 = (other :: others, None) →
           Monitors other = monitors0 :: more →
           (WithRBDCommandInput namespace s2).1 = (WithRBDCommandInput namespace s).1
           ∧ rbdCommandInput (WithRBDCommandInput namespace s2).2
             = rbdCommandInput (WithRBDCommandInput namespace s).2).
Proof.
  intros Hal Hs Hk Hc Hd.
  pose proof (With_reads _ _ _ _ _ _ _ _ Hal Hs Hk Hc Hd) as HW.
  split_and!.
  - intros partial err Hu. rewrite HW, Hu. by destruct partial.
  - intros Hu. by rewrite HW, Hu.
  - intros c cs Hu Hm. by rewrite HW, Hu, Hm.
  - intros c cs m ms Hu Hm. split; [by rewrite HW, Hu, Hm|].
    intros s2 secret2 configmap2 data2 v1 v2 other others more Hal2 Hin Hs2 Hk2 Hc2 Hd2 Hu2 Hm2.
    rewrite (With_reads _ _ _ _ _ _ _ _ Hal2 Hs2 Hk2 Hc2 Hd2), Hu2, Hm2.
    rewrite HW, Hu, Hm. simpl. by rewrite Hin.
Qed.

End Resolve.

Lemma WithRBDCommandInput_caches_witness :
  (WithRBDCommandInput "ns1" (Fixture.store1 [])).1 = None
  ∧ rbdCommandInput (WithRBDCommandInput "ns1" (Fixture.store1 [])).2
    = {[ "ns1" := {| monitor := "10.0.0.1:6789"; id := "admin"; key := "AQABCDEF==" |} ]}
  ∧ filter is_lookup
      (emitted (WithRBDCommandInput "ns1" (Fixture.store1 [])).2
         (Add (Fixture.pool "pool1" "ns1" "u1" true)
            (WithRBDCommandInput "ns1" (Fixture.store1 [])).2).2) = [].
Proof.
  pose proof (WithRBDCommandInput_caches "ns1" (Fixture.store1 [])
                (Fixture.secretOf "AQABCDEF==") "AQABCDEF=="
                (Fixture.configMapOf Fixture.clusterConfigJSON) Fixture.clusterConfigJSON
                (Fixture.worldOf Fixture.clusterConfigJSON [])
                (Fixture.worldOf Fixture.clusterConfigJSON [])
                {| ClusterID := "c1"; Monitors := ["10.0.0.1:6789"] |} []
                "10.0.0.1:6789" []) as Hthm.
  destruct Hthm as ((s' & HW & Hin & _) & Hadd & _).
  - simpl. by left.
  - reflexivity.
  - reflexivity.
  - reflexivity.
  - reflexivity.
  - vm_compute. reflexivity.
  - reflexivity.
  - rewrite HW. simpl. split_and!; [done|by rewrite Hin|].
    apply (Hadd (Fixture.cephBlockPool "pool1" "ns1" "u1" true) s' eq_refl).
    rewrite Hin. by rewrite lookup_insert_eq.
Defined.

Lemma WithRBDCommandInput_first_monitor_witness :
  WithRBDCommandInput "ns1" (Fixture.storeOf "[]" []) =
    (Some (NoClusterConfig "ns1"),
     set_env (after_reads "ns1" (Fixture.worldOf "[]" []) (Fixture.storeOf "[]" []))
       (Fixture.storeOf "[]" []))
  ∧ rbdCommandInput (WithRBDCommandInput "ns1" (Fixture.storeOf Fixture.clusterConfigJSON2 [])).2
    = rbdCommandInput (WithRBDCommandInput "ns1" (Fixture.storeOf Fixture.clusterConfigJSON [])).2.
Proof.
  split.
  - apply (WithRBDCommandInput_first_monitor "ns1" (Fixture.storeOf "[]" [])
             (Fixture.secretOf "AQABCDEF==") "AQABCDEF=="
             (Fixture.configMapOf "[]") "[]"
             (Fixture.worldOf "[]" []) (Fixture.worldOf "[]" [])).
    + simpl. by left.
    + reflexivity.
    + reflexivity.
    + reflexivity.
    + reflexivity.
    + vm_compute. reflexivity.
  - pose proof (WithRBDCommandInput_first_monitor "ns1"
                  (Fixture.storeOf Fixture.clusterConfigJSON [])
                  (Fixture.secretOf "AQABCDEF==") "AQABCDEF=="
                  (Fixture.configMapOf Fixture.clusterConfigJSON) Fixture.clusterConfigJSON
                  (Fixture.worldOf Fixture.clusterConfigJSON [])
                  (Fixture.worldOf Fixture.clusterConfigJSON [])) as Hthm.
    destruct Hthm as (_ & _ & _ & Hfirst).
    + simpl. by left.
    + reflexivity.
    + reflexivity.
    + reflexivity.
    + reflexivity.
    + destruct (Hfirst {| ClusterID := "c1"; Monitors := ["10.0.0.1:6789"] |} []
                  "10.0.0.1:6789" []) as [_ Hsame].
      * vm_compute. reflexivity.
      * reflexivity.
      * apply (Hsame (Fixture.storeOf Fixture.clusterConfigJSON2 [])
                 (Fixture.secretOf "AQABCDEF==")
                 (Fixture.configMapOf Fixture.clusterConfigJSON2) Fixture.clusterConfigJSON2
                 (Fixture.worldOf Fixture.clusterConfigJSON2 [])
                 (Fixture.worldOf Fixture.clusterConfigJSON2 [])
                 {| ClusterID := "c1"; Monitors := ["10.0.0.1:6789"; "10.0.0.2:6789"] |}
                 [{| ClusterID := "c2"; Monitors := ["10.9.9.9:6789"] |}]
                 ["10.0.0.2:6789"]).
        -- simpl. by left.
        -- reflexivity.
        -- reflexivity.
        -- reflexivity.
        -- reflexivity.
        -- reflexivity.
        -- vm_compute. reflexivity.
        -- reflexivity.
Defined.

(** ** [Replace] *)

Section ReplaceFacts.
Context {World : Type} `{External World}.
Implicit Types (s : RBDMirrorStore World) (e : Env World).

(** What a successful [Add] does to the map. *)
Lemma Add_success obj s s' :
  Add obj s = (Done None, s') →
  ∃ pool, obj = ObjCephBlockPool pool
    ∧ ((Enabled (Mirroring (Spec pool)) = false ∧ Store s' = Store s)
       ∨ (Enabled (Mirroring (Spec pool)) = true
          ∧ ∃ mirrorStatus,
              Store s' =
                <[GetUID (Meta pool) :=
                    record (Name (Meta pool)) (Namespace (Meta pool)) mirrorStatus]>
                  (Store s))).
Proof.
  intros HA. destruct obj as [pool|meta|]; [|by unfold Add in HA|by unfold Add in HA].
  exists pool. split; [done|].
  destruct (Enabled (Mirroring (Spec pool))) eqn:Hen.
  - right. split; [done|]. rewrite (Add_attempt pool s Hen) in HA.
    pose proof (attempt_Store (Namespace (Meta pool)) (Name (Meta pool)) s) as HS.
    destruct (attempt _ _ s) as [[cause|cause|st|] s1]; simplify_eq/=.
    exists st. by rewrite HS.
  - left. rewrite (Add_disabled pool s Hen) in HA. by simplify_eq/=.
Qed.

Lemma Replace_range_app (pre post : list Obj) s s1 :
  Replace_range pre s = (Done None, s1) →
  Replace_range (pre ++ post) s = Replace_range post s1.
Proof.
  revert s. induction pre as [|o pre IH]; intros s Hpre; simpl in *.
  - by simplify_eq.
  - destruct (Add o s) as [[[err|]|] s0]; try done. by apply IH.
Qed.

Lemma Replace_range_error (b : Obj) (post : list Obj) s err s2 :
  Add b s = (Done (Some err), s2) →
  Replace_range (b :: post) s = (Done (Some err), s2).
Proof. intros HA. simpl. by rewrite HA. Qed.

(** The map after a run of the loop without error: the entries it had,
    and one for each pool with mirroring on. *)
Lemma Replace_range_Store (pre : list Obj) s s1 :
  Replace_range pre s = (Done None, s1) →
  dom (Store s1) = dom (Store s) ∪ list_to_set ((GetUID ∘ Meta) <$> mirrored pre)
  ∧ ∀ uid r, Store s1 !! uid = Some r →
      Store s !! uid = Some r
      ∨ ∃ pool, pool ∈ mirrored pre ∧ GetUID (Meta pool) = uid
          ∧ PoolName r = Name (Meta pool) ∧ PoolNamespace r = Namespace (Meta pool).
Proof.
  revert s. induction pre as [|o pre IH]; intros s Hpre; simpl in *.
  - simplify_eq. split; [set_solver|auto].
  - destruct (Add o s) as [[[err|]|] s0] eqn:HA; try done.
    apply Add_success in HA as (pool & -> & [[Hen HS]|[Hen [st HS]]]);
      destruct (IH _ Hpre) as [Hdom Hrec]; rewrite Hen.
    + rewrite Hdom, HS. split; [done|]. intros uid r Hr.
      destruct (Hrec uid r Hr) as [?|?]; [left; congruence|by right].
    + rewrite Hdom, HS, dom_insert_L. split; [set_solver|].
      intros uid r Hr. destruct (Hrec uid r Hr) as [Hs0|(p & Hp & ?)].
      * rewrite HS in Hs0. destruct (decide (GetUID (Meta pool) = uid)) as [Heq|Hne].
        -- rewrite Heq, lookup_insert_eq in Hs0. simplify_eq/=.
           right. exists pool. split_and!; try done. by left.
        -- rewrite lookup_insert_ne in Hs0 by done. by left.
      * right. exists p. split; [by right|done].
Qed.

(** C1. [Replace] empties the map and then runs [Add] on the items in the
    order of the list.  At the first item whose [Add] returns an error it
    returns that error: the state is the one that [Add] left, whatever
    follows the item in the list, and the map holds what the items before
    it wrote, one entry for each pool with mirroring on.  For
    [[A; B; C]] with an error at [B], the error is that of [B] and the map
    is the one after [A]: the one record of [A] when [A] is a pool with
    mirroring on. *)
Theorem Replace_first_error_aborts (list : list Obj) (resourceVersion : string) s :
  Replace list resourceVersion s = Replace_range list (Replace_start s)
  ∧ Store (Replace_start s) = ∅
  ∧ (∀ pre b post s1 err s2,
       list = pre ++ b :: post →
       Replace_range pre (Replace_start s) = (Done None, s1) →
       Add b s1 = (Done (Some err), s2) →
       Replace list resourceVersion s = (Done (Some err), s2)
       ∧ (∀ others, Replace (pre ++ b :: others) resourceVersion s = (Done (Some err), s2))
       ∧ Store s2 = Store s1
       ∧ dom (Store s2) = list_to_set ((GetUID ∘ Meta) <$> mirrored pre)
       ∧ (∀ uid r, Store s2 !! uid = Some r →
            ∃ pool, pool ∈ mirrored pre ∧ GetUID (Meta pool) = uid
              ∧ PoolName r = Name (Meta pool) ∧ PoolNamespace r = Namespace (Meta pool)))
  ∧ (∀ A B C sA err sB,
       list = [A; B; C] →
       Add A (Replace_start s) = (Done None, sA) →
       Add B sA = (Done (Some err), sB) →
       Replace list resourceVersion s = (Done (Some err), sB)
       ∧ Store sB = Store sA
       ∧ (∀ pool, A = ObjCephBlockPool pool →
            if Enabled (Mirroring (Spec pool)) then
              ∃ mirrorStatus,
                Store sB =
                  {[ GetUID (Meta pool) :=
                       record (Name (Meta pool)) (Namespace (Meta pool)) mirrorStatus ]}
            else Store sB = ∅)).
Proof.
  assert (∀ b s1 err s2, Add b s1 = (Done (Some err), s2) → Store s2 = Store s1) as Hkeep.
  { intros b s1 err s2 HA. destruct b as [pool|meta|]; [|by unfold Add in HA; simplify_eq/=..].
    destruct (Enabled (Mirroring (Spec pool))) eqn:Hen.
    - rewrite (Add_attempt pool s1 Hen) in HA.
      pose proof (attempt_Store (Namespace (Meta pool)) (Name (Meta pool)) s1) as HS.
      by destruct (attempt _ _ s1) as [[cause|cause|st|] s0]; simplify_eq/=.
    - by rewrite (Add_disabled pool s1 Hen) in HA. }
  split_and!; try done.
  - intros pre b post s1 err s2 -> Hpre HA.
    assert (∀ others, Replace (pre ++ b :: others) resourceVersion s = (Done (Some err), s2))
      as Hany.
    { intros others. unfold Replace. fold (Replace_start s).
      rewrite (Replace_range_app _ _ _ _ Hpre). by apply Replace_range_error. }
    pose proof (Hkeep _ _ _ _ HA) as HS.
    destruct (Replace_range_Store _ _ _ Hpre) as [Hdom Hrec].
    split_and!; try done.
    + rewrite HS, Hdom. simpl. set_solver.
    + intros uid r Hr. rewrite HS in Hr.
      destruct (Hrec uid r Hr) as [Hemp|?]; [|done]. simpl in Hemp. by simplify_map_eq.
  - intros A B C sA err sB -> HA HB. split_and!.
    + unfold Replace. fold (Replace_start s). simpl. by rewrite HA, HB.
    + by eapply Hkeep.
    + intros pool ->. rewrite (Hkeep _ _ _ _ HB).
      apply Add_success in HA as (p & [= <-] & [[Hen HS]|[Hen [st HS]]]); rewrite Hen.
      * by rewrite HS.
      * exists st. by rewrite HS.
Qed.

End ReplaceFacts.

Lemma Replace_first_error_aborts_witness :
  Replace [Fixture.pool "pool1" "ns1" "u1" true;
           Fixture.pool "pool2" "ns2" "u2" true;
           Fixture.pool "pool3" "ns1" "u3" true] "42"
      (Fixture.store2 [(Fixture.statusJSON "WARNING", None); (Fixture.statusJSON "OK", None)])
    = (Done (Some (RbdCommandInputError "ns2" "pool2"
                     (SecretLookupError "ns2" (Foreign "secrets not found")))),
       (Add (Fixture.pool "pool2" "ns2" "u2" true)
          (Add (Fixture.pool "pool1" "ns1" "u1" true)
             (Replace_start
                (Fixture.store2 [(Fixture.statusJSON "WARNING", None);
                                 (Fixture.statusJSON "OK", None)]))).2).2)
  ∧ Store (Add (Fixture.pool "pool2" "ns2" "u2" true)
             (Add (Fixture.pool "pool1" "ns1" "u1" true)
                (Replace_start
                   (Fixture.store2 [(Fixture.statusJSON "WARNING", None);
                                    (Fixture.statusJSON "OK", None)]))).2).2
    = {[ "u1" := record "pool1" "ns1" (Fixture.statusWith "WARNING") ]}.
Proof.
  destruct (Replace_first_error_aborts
              [Fixture.pool "pool1" "ns1" "u1" true;
               Fixture.pool "pool2" "ns2" "u2" true;
               Fixture.pool "pool3" "ns1" "u3" true] "42"
              (Fixture.store2 [(Fixture.statusJSON "WARNING", None);
                               (Fixture.statusJSON "OK", None)]))
    as (_ & _ & _ & Habc).
  destruct (Habc _ _ _
              (Add (Fixture.pool "pool1" "ns1" "u1" true)
                 (Replace_start
                    (Fixture.store2 [(Fixture.statusJSON "WARNING", None);
                                     (Fixture.statusJSON "OK", None)]))).2
              (RbdCommandInputError "ns2" "pool2"
                 (SecretLookupError "ns2" (Foreign "secrets not found")))
              (Add (Fixture.pool "pool2" "ns2" "u2" true)
                 (Add (Fixture.pool "pool1" "ns1" "u1" true)
                    (Replace_start
                       (Fixture.store2 [(Fixture.statusJSON "WARNING", None);
                                        (Fixture.statusJSON "OK", None)]))).2).2
              eq_refl)
    as (HR & HS & _).
  - vm_compute. reflexivity.
  - vm_compute. reflexivity.
  - split; [exact HR|]. rewrite HS. vm_compute. reflexivity.
Defined.

(** ** [Resync] *)

Section ResyncFacts.
Context {World : Type} `{External World}.
Implicit Types (s : RBDMirrorStore World) (e : Env World).

Lemma extends_refl s : extends s s.
Proof. exists []. by rewrite app_nil_r. Qed.

Lemma extends_trans s1 s2 s3 : extends s1 s2 → extends s2 s3 → extends s1 s3.
Proof. intros [a Ha] [b Hb]. exists (a ++ b). by rewrite Hb, Ha, app_assoc. Qed.

Lemma extends_note ev s : extends s (note ev s).
Proof. by exists [ev]. Qed.

Lemma emitted_within s s1 s2 s' ev :
  extends s s1 → extends s2 s' → extends s1 s2 →
  ev ∈ emitted s1 s2 → ev ∈ emitted s s'.
Proof.
  intros [a Ha] [c Hc] [b Hb] Hev.
  rewrite (emitted_app _ _ _ Hb) in Hev.
  rewrite (emitted_app s s' (a ++ b ++ c)).
  - rewrite !elem_of_app. auto.
  - by rewrite Hc, Hb, Ha, <- !app_assoc.
Qed.

Lemma attempt_extends namespace poolName s : extends s (attempt namespace poolName s).2.
Proof. destruct (attempt_trace namespace poolName s) as (evs & Ht & _). by exists evs. Qed.

(** The loop body returns: the method call on the cached input always has
    a receiver. *)
Lemma Resync_body_Done poolUUID (poolStatusVerbose : RBDMirrorPoolStatusVerbose) s :
  (Resync_body poolUUID poolStatusVerbose s).1 = Done ().
Proof.
  rewrite Resync_body_attempt.
  pose proof (attempt_not_NilInput (PoolNamespace poolStatusVerbose)
                (PoolName poolStatusVerbose) s) as Hnil.
  by destruct (attempt _ _ s) as [[cause|cause|st|] s1].
Qed.

Lemma Resync_body_extends poolUUID (poolStatusVerbose : RBDMirrorPoolStatusVerbose) s :
  extends s (Resync_body poolUUID poolStatusVerbose s).2.
Proof.
  eapply extends_trans; [apply attempt_extends|].
  destruct (Resync_body_trace poolUUID poolStatusVerbose s) as (evs & Ht & _).
  by exists evs.
Qed.

(** The body changes the entry of its own key at most, and of that one the
    status at most. *)
Lemma Resync_body_Store poolUUID (poolStatusVerbose : RBDMirrorPoolStatusVerbose) s :
  Store (Resync_body poolUUID poolStatusVerbose s).2 = Store s
  ∨ ∃ mirrorStatus,
      Store (Resync_body poolUUID poolStatusVerbose s).2 =
        <[poolUUID := record (PoolName poolStatusVerbose) (PoolNamespace poolStatusVerbose)
                        mirrorStatus]> (Store s).
Proof.
  rewrite Resync_body_attempt.
  pose proof (attempt_Store (PoolNamespace poolStatusVerbose)
                (PoolName poolStatusVerbose) s) as HS.
  destruct (attempt _ _ s) as [[cause|cause|st|] s1]; simpl in *; auto.
  right. exists st. by rewrite HS.
Qed.

Lemma Resync_range_Done (order : list UID) s : (Resync_range order s).1 = Done ().
Proof.
  revert s. induction order as [|k order IH]; intros s; simpl; [done|].
  destruct (Store s !! k) as [v|]; [|done].
  pose proof (Resync_body_Done k v s) as Hb.
  destruct (Resync_body k v s) as [[[]|] s1]; [apply IH|done].
Qed.

Lemma Resync_range_cons (k : UID) (order : list UID) s (v : RBDMirrorPoolStatusVerbose) :
  Store s !! k = Some v →
  Resync_range (k :: order) s = Resync_range order (Resync_body k v s).2.
Proof.
  intros Hk. simpl. rewrite Hk.
  pose proof (Resync_body_Done k v s) as Hb.
  by destruct (Resync_body k v s) as [[[]|] s1].
Qed.

Lemma Resync_range_app (pre post : list UID) s :
  Resync_range (pre ++ post) s = Resync_range post (Resync_range pre s).2.
Proof.
  revert s. induction pre as [|k pre IH]; intros s; [done|].
  rewrite <- app_comm_cons. destruct (Store s !! k) as [v|] eqn:Hk.
  - rewrite !(Resync_range_cons _ _ _ _ Hk). apply IH.
  - simpl. rewrite Hk. apply IH.
Qed.

Lemma Resync_range_extends (order : list UID) s : extends s (Resync_range order s).2.
Proof.
  revert s. induction order as [|k order IH]; intros s; [apply extends_refl|].
  destruct (Store s !! k) as [v|] eqn:Hk.
  - rewrite (Resync_range_cons _ _ _ _ Hk).
    eapply extends_trans; [apply Resync_body_extends|apply IH].
  - simpl. rewrite Hk. apply IH.
Qed.

(** Keys that the loop does not reach keep their entry. *)
Lemma Resync_range_other (order : list UID) s (uid : UID) :
  uid ∉ order → Store (Resync_range order s).2 !! uid = Store s !! uid.
Proof.
  revert s. induction order as [|k order IH]; intros s Hout; [done|].
  apply not_elem_of_cons in Hout as [Hne Hout].
  destruct (Store s !! k) as [v|] eqn:Hk.
  - rewrite (Resync_range_cons _ _ _ _ Hk), IH by done.
    destruct (Resync_body_Store k v s) as [->|[st ->]]; [done|].
    by rewrite lookup_insert_ne.
  - simpl. rewrite Hk. by apply IH.
Qed.

Lemma same_pool_refl o : same_pool o o.
Proof. by destruct o. Qed.

Lemma same_pool_trans o1 o2 o3 : same_pool o1 o2 → same_pool o2 o3 → same_pool o1 o3.
Proof.
  destruct o1, o2, o3; simpl; try done. intros [-> ->] [-> ->]. done.
Qed.

Lemma Resync_body_same_pool (k : UID) (v : RBDMirrorPoolStatusVerbose) s (uid : UID) :
  Store s !! k = Some v →
  same_pool (Store s !! uid) (Store (Resync_body k v s).2 !! uid).
Proof.
  intros Hk. destruct (Resync_body_Store k v s) as [->|[st ->]]; [apply same_pool_refl|].
  destruct (decide (k = uid)) as [<-|Hne].
  - by rewrite lookup_insert_eq, Hk.
  - rewrite lookup_insert_ne by done. apply same_pool_refl.
Qed.

Lemma Resync_range_same_pool (order : list UID) s (uid : UID) :
  same_pool (Store s !! uid) (Store (Resync_range order s).2 !! uid).
Proof.
  revert s. induction order as [|k order IH]; intros s; [apply same_pool_refl|].
  destruct (Store s !! k) as [v|] eqn:Hk.
  - rewrite (Resync_range_cons _ _ _ _ Hk).
    eapply same_pool_trans; [by apply Resync_body_same_pool|apply IH].
  - simpl. rewrite Hk. apply IH.
Qed.

Lemma Resync_in_eq (order : list UID) s :
  Resync_in order s =
    (Done None,
     note EvUnlock (note (EvInfo LogResyncEnded) (Resync_range order (Resync_start s)).2)).
Proof.
  unfold Resync_in. fold (Resync_start s).
  pose proof (Resync_range_Done order (Resync_start s)) as Hd.
  by destruct (Resync_range order (Resync_start s)) as [[[]|] s3].
Qed.

Lemma iteration_order_NoDup s (order : list UID) :
  iteration_order s order → NoDup order.
Proof. intros Hperm. rewrite Hperm. apply NoDup_fst_map_to_list. Qed.

Lemma iteration_order_elem s (order : list UID) (k : UID) :
  iteration_order s order → k ∈ order → is_Some (Store s !! k).
Proof.
  intros Hperm Hk. rewrite Hperm in Hk.
  apply list_elem_of_fmap in Hk as ([k' v] & -> & Hin).
  apply elem_of_map_to_list in Hin. by exists v.
Qed.

(** C10. Whatever the order of the loop, [Resync] leaves the set of keys
    of the map as it is, and an entry after [Resync] has the pool name and
    the pool namespace it had before: only its status can differ. *)
Theorem Resync_keeps_identities (order : list UID) s :
  dom (Store (Resync_in order s).2) = dom (Store s)
  ∧ (∀ uid v', Store (Resync_in order s).2 !! uid = Some v' →
       ∃ v, Store s !! uid = Some v
         ∧ PoolName v' = PoolName v ∧ PoolNamespace v' = PoolNamespace v)
  ∧ (∀ uid v, Store s !! uid = Some v →
       ∃ v', Store (Resync_in order s).2 !! uid = Some v'
         ∧ PoolName v' = PoolName v ∧ PoolNamespace v' = PoolNamespace v)
  ∧ (Resync s).2 = (Resync_in (map_to_list (Store s)).*1 s).2.
Proof.
  rewrite Resync_in_eq. simpl.
  assert (∀ uid, same_pool (Store s !! uid)
                   (Store (Resync_range order (Resync_start s)).2 !! uid)) as Hsame.
  { intros uid. apply (Resync_range_same_pool order (Resync_start s) uid). }
  split_and!.
  - apply set_eq. intros uid. rewrite !elem_of_dom. specialize (Hsame uid).
    destruct (Store s !! uid) as [v|],
      (Store (Resync_range order (Resync_start s)).2 !! uid) as [v'|];
      simpl in Hsame; try done.
  - intros uid v' Hv'. specialize (Hsame uid). rewrite Hv' in Hsame.
    destruct (Store s !! uid) as [v|]; simpl in Hsame; [|done]. by exists v.
  - intros uid v Hv. specialize (Hsame uid). rewrite Hv in Hsame.
    destruct (Store (Resync_range order (Resync_start s)).2 !! uid) as [v'|];
      simpl in Hsame; [|done]. by exists v'.
  - done.
Qed.

(** C2. [Resync] returns nil, in whatever order the loop reaches the
    entries.  It reaches every entry, also after failures before it.  When
    the credentials of the entry's namespace do not resolve, or its status
    is not fetched, the error is logged and the entry after [Resync] is
    the entry before it; when the status is fetched, the entry has the new
    status under the same pool name and namespace. *)
Theorem Resync_keeps_failed_entries (order : list UID) s :
  iteration_order s order →
  (Resync_in order s).1 = Done None
  ∧ ∀ pre k post, order = pre ++ k :: post →
      ∃ v sk,
        Store s !! k = Some v
        ∧ Resync_range pre (Resync_start s) = (Done (), sk)
        ∧ Store sk !! k = Some v
        ∧ match (attempt (PoolNamespace v) (PoolName v) sk).1 with
          | ResolveFailed err =>
            Store (Resync_in order s).2 !! k = Some v
            ∧ EvError (LogInitFailed (PoolNamespace v) (PoolName v) err)
                ∈ emitted s (Resync_in order s).2
          | FetchFailed err =>
            Store (Resync_in order s).2 !! k = Some v
            ∧ EvError (LogRbdError err) ∈ emitted s (Resync_in order s).2
          | Fetched mirrorStatus =>
            Store (Resync_in order s).2 !! k =
              Some (record (PoolName v) (PoolNamespace v) mirrorStatus)
          | NilInput => False
          end.
Proof.
  intros Hord. rewrite Resync_in_eq. split; [done|].
  intros pre k post ->. simpl.
  pose proof (iteration_order_NoDup _ _ Hord) as Hnd.
  apply NoDup_app in Hnd as (_ & Hpre & [Hpost _]%NoDup_cons).
  assert (k ∉ pre) as Hkpre.
  { intros Hin. apply (Hpre k Hin). by left. }
  destruct (iteration_order_elem s _ k Hord) as [v Hv].
  { apply elem_of_app. right. by left. }
  pose (sk := (Resync_range pre (Resync_start s)).2).
  assert (Store sk !! k = Some v) as Hsk.
  { unfold sk. by rewrite Resync_range_other. }
  exists v, sk. split_and!; [done| |done|].
  { pose proof (Resync_range_Done pre (Resync_start s)) as Hd. unfold sk.
    by destruct (Resync_range pre (Resync_start s)) as [[[]|] s1]. }
  rewrite Resync_range_app. fold sk. rewrite (Resync_range_cons _ _ _ _ Hsk).
  rewrite Resync_range_other by done.
  assert (extends s sk) as Hs_sk.
  { eapply extends_trans; [|apply Resync_range_extends].
    eapply extends_trans; apply extends_note. }
  assert (extends (Resync_body k v sk).2
            (note EvUnlock (note (EvInfo LogResyncEnded)
                              (Resync_range post (Resync_body k v sk).2).2))) as Hend.
  { eapply extends_trans; [apply Resync_range_extends|].
    eapply extends_trans; apply extends_note. }
  pose proof (Resync_body_attempt k v sk) as Hbody.
  pose proof (attempt_not_NilInput (PoolNamespace v) (PoolName v) sk) as Hnil.
  pose proof (attempt_Store (PoolNamespace v) (PoolName v) sk) as HS.
  pose proof (attempt_extends (PoolNamespace v) (PoolName v) sk) as Hext.
  destruct (attempt (PoolNamespace v) (PoolName v) sk) as [[cause|cause|st|] s1];
    simpl in *; try done; rewrite Hbody in *; simpl in *.
  - split; [by rewrite HS|].
    eapply (emitted_within s s1); [by eapply extends_trans|exact Hend|apply extends_note|].
    erewrite emitted_app; [|reflexivity]. by left.
  - split; [by rewrite HS|].
    eapply (emitted_within s s1); [by eapply extends_trans|exact Hend|apply extends_note|].
    erewrite emitted_app; [|reflexivity]. by left.
  - by rewrite lookup_insert_eq.
Qed.

End ResyncFacts.

Lemma Resync_keeps_identities_witness :
  dom (Store (Resync_in ["u1"; "u2"] (Fixture.store2 [(Fixture.statusJSON "WARNING", None)])).2)
    = dom (Store (Fixture.store2 [(Fixture.statusJSON "WARNING", None)]))
  ∧ ∃ v, Store (Fixture.store2 [(Fixture.statusJSON "WARNING", None)]) !! "u1" = Some v
      ∧ PoolName (record "pool1" "ns1" (Fixture.statusWith "WARNING")) = PoolName v
      ∧ PoolNamespace (record "pool1" "ns1" (Fixture.statusWith "WARNING")) = PoolNamespace v.
Proof.
  destruct (Resync_keeps_identities ["u1"; "u2"]
              (Fixture.store2 [(Fixture.statusJSON "WARNING", None)]))
    as (Hdom & Hback & _).
  split; [exact Hdom|].
  apply (Hback "u1"). vm_compute. reflexivity.
Defined.

Lemma Resync_keeps_failed_entries_witness :
  (Resync_in ["u2"; "u1"] (Fixture.store2 [(Fixture.statusJSON "WARNING", None)])).1 = Done None
  ∧ Store (Resync_in ["u2"; "u1"]
             (Fixture.store2 [(Fixture.statusJSON "WARNING", None)])).2 !! "u2"
    = Some (record "pool2" "ns2" (Fixture.statusWith "OK"))
  ∧ EvError (LogInitFailed "ns2" "pool2"
               (SecretLookupError "ns2" (Foreign "secrets not found")))
      ∈ emitted (Fixture.store2 [(Fixture.statusJSON "WARNING", None)])
          (Resync_in ["u2"; "u1"] (Fixture.store2 [(Fixture.statusJSON "WARNING", None)])).2
  ∧ Store (Resync_in ["u2"; "u1"]
             (Fixture.store2 [(Fixture.statusJSON "WARNING", None)])).2 !! "u1"
    = Some (record "pool1" "ns1" (Fixture.statusWith "WARNING")).
Proof.
  destruct (Resync_keeps_failed_entries ["u2"; "u1"]
              (Fixture.store2 [(Fixture.statusJSON "WARNING", None)]))
    as (Hnil & Hentry).
  - unfold iteration_order. vm_compute. apply perm_swap.
  - split; [exact Hnil|].
    destruct (Hentry [] "u2" ["u1"] eq_refl) as (v2 & sk2 & Hv2 & Hsk2 & _ & Hm2).
    destruct (Hentry ["u2"] "u1" [] eq_refl) as (v1 & sk1 & Hv1 & Hsk1 & _ & Hm1).
    vm_compute in Hv2. injection Hv2 as <-.
    vm_compute in Hv1. injection Hv1 as <-.
    injection Hsk2 as <-.
    assert (sk1 = (Resync_range ["u2"] (Resync_start
                     (Fixture.store2 [(Fixture.statusJSON "WARNING", None)]))).2) as ->.
    { by rewrite Hsk1. }
    split_and!.
    + exact (proj1 Hm2).
    + exact (proj2 Hm2).
    + exact Hm1.
Defined.

(** ** What no operation does *)

Section Frame.
Context {World : Type} `{External World}.
Implicit Types (s : RBDMirrorStore World) (e : Env World).

(** [Add] never panics. *)
Lemma Add_returns obj s : (Add obj s).1 ≠ Panic.
Proof.
  destruct obj as [pool|meta|]; [|done..].
  destruct (Enabled (Mirroring (Spec pool))) eqn:Hen.
  - rewrite (Add_attempt pool s Hen).
    pose proof (attempt_not_NilInput (Namespace (Meta pool)) (Name (Meta pool)) s) as Hnil.
    by destruct (attempt _ _ s) as [[cause|cause|st|] s1].
  - by rewrite (Add_disabled pool s Hen).
Qed.

Lemma Replace_range_returns (list : list Obj) s : (Replace_range list s).1 ≠ Panic.
Proof.
  revert s. induction list as [|o rest IH]; intros s; simpl; [done|].
  pose proof (Add_returns o s) as HA.
  destruct (Add o s) as [[[err|]|] s1]; simpl in *; [done|apply IH|done].
Qed.

(** The allow-list is the one the store was made with. *)
Lemma Add_allowedNamespaces obj s :
  allowedNamespaces (Add obj s).2 = allowedNamespaces s.
Proof.
  destruct obj as [pool|meta|]; [|done..].
  destruct (Enabled (Mirroring (Spec pool))) eqn:Hen.
  - rewrite (Add_attempt pool s Hen).
    pose proof (attempt_allowedNamespaces (Namespace (Meta pool)) (Name (Meta pool)) s) as Hal.
    by destruct (attempt _ _ s) as [[cause|cause|st|] s1].
  - by rewrite (Add_disabled pool s Hen).
Qed.

Lemma Delete_allowedNamespaces obj s :
  allowedNamespaces (Delete obj s).2 = allowedNamespaces s.
Proof. by destruct obj. Qed.

Lemma Replace_allowedNamespaces (list : list Obj) (resourceVersion : string) s :
  allowedNamespaces (Replace list resourceVersion s).2 = allowedNamespaces s.
Proof.
  unfold Replace. fold (Replace_start s).
  change (allowedNamespaces s) with (allowedNamespaces (Replace_start s)).
  generalize (Replace_start s). clear s.
  induction list as [|o rest IH]; intros s; simpl; [done|].
  pose proof (Add_allowedNamespaces o s) as HA.
  destruct (Add o s) as [[[err|]|] s1]; simpl in *; [done| |done].
  by rewrite IH.
Qed.

Lemma Resync_allowedNamespaces (order : list UID) s :
  allowedNamespaces (Resync_in order s).2 = allowedNamespaces s.
Proof.
  rewrite Resync_in_eq. simpl.
  change (allowedNamespaces s) with (allowedNamespaces (Resync_start s)).
  generalize (Resync_start s). clear s.
  induction order as [|k order IH]; intros s; [done|].
  destruct (Store s !! k) as [v|] eqn:Hk.
  - rewrite (Resync_range_cons _ _ _ _ Hk), IH, Resync_body_attempt.
    pose proof (attempt_allowedNamespaces (PoolNamespace v) (PoolName v) s) as Hal.
    by destruct (attempt _ _ s) as [[cause|cause|st|] s1].
  - simpl. rewrite Hk. apply IH.
Qed.

(** Every change [Add] makes to the map is made with the mutex held. *)
Lemma Add_well_locked obj s :
  well_locked false (filter (λ ev, negb (is_external ev)) (emitted s (Add obj s).2)) = true.
Proof.
  destruct obj as [pool|meta|]; [|by rewrite emitted_refl..].
  destruct (Enabled (Mirroring (Spec pool))) eqn:Hen.
  - destruct (attempt_trace (Namespace (Meta pool)) (Name (Meta pool)) s) as (evs & Ht & Hex & _).
    assert (filter (λ ev, negb (is_external ev)) evs = []) as Hnone.
    { clear Ht. induction evs as [|ev evs IH]; [done|].
      simpl in Hex. apply andb_prop in Hex as [Hev Hex].
      rewrite filter_cons. rewrite Hev. simpl. by apply IH. }
    rewrite (Add_attempt pool s Hen).
    destruct (attempt _ _ s) as [[cause|cause|st|] s1]; simpl in *.
    + rewrite (emitted_app _ _ (evs ++ [EvError (LogInitFailed (Namespace (Meta pool))
                                                   (Name (Meta pool)) cause)])).
      * by rewrite filter_app, Hnone.
      * simpl. by rewrite Ht, <- app_assoc.
    + by rewrite (emitted_app _ _ evs), Hnone.
    + rewrite (emitted_app _ _ (evs ++ [EvLock; EvStoreSet (GetUID (Meta pool)); EvUnlock])).
      * by rewrite filter_app, Hnone.
      * simpl. by rewrite Ht, <- !app_assoc.
    + by rewrite (emitted_app _ _ evs), Hnone.
  - rewrite (Add_disabled pool s Hen). simpl.
    by rewrite (emitted_app _ _ [EvInfo (LogSkipDisabled (Namespace (Meta pool))
                                           (Name (Meta pool)))]).
Qed.

End Frame.

(** ** The bootstrap *)

Section BootstrapFacts.
Context {World Kubeconfig : Type} `{FileSystem World} `{ClientFactory World Kubeconfig}.
Implicit Types (p : Proc World).

Lemma fs_emitted_app p p' (log : list FsEvent) :
  fslog p' = fslog p ++ log → fs_emitted p p' = log.
Proof. intros Heq. unfold fs_emitted. rewrite Heq. by rewrite drop_app_length. Qed.

Ltac boot_step :=
  match goal with
  | |- context [MkdirAll ?a ?b ?c] => destruct (MkdirAll a b c) as [[?|] ?] eqn:?
  | |- context [Stat ?a ?b] => destruct (Stat a b) as [[?|] ?] eqn:?
  | |- context [WriteFile ?a ?b ?c ?d] => destruct (WriteFile a b c d) as [[?|] ?] eqn:?
  | |- context [Create ?a ?b] => destruct (Create a b) as [[?|] ?] eqn:?
  | |- context [IsNotExist ?e] => destruct (IsNotExist e) eqn:?
  end.

Ltac boot_cases :=
  unfold writeCephConfig, createCephConfigRoot, createKeyRingFile,
    os_MkdirAll, os_Stat, os_Create, os_WriteFile;
  repeat (simpl; boot_step); simpl.

Ltac boot_log :=
  erewrite fs_emitted_app; [|simpl; rewrite <- ?app_assoc; simpl; reflexivity].

(** X1. Whatever the file system answers, [writeCephConfig] changes a file only
    right after a [Stat] of that file found nothing: it never overwrites a
    ceph.conf or a keyring that is there.  What it makes is the directory
    [/etc/ceph] with mode 0755, the file [/etc/ceph/ceph.conf] with the
    fixed content and mode 0600, and the file [/etc/ceph/keyring]. *)
Theorem writeCephConfig_no_clobber p :
  no_clobber None (fs_emitted p (writeCephConfig p).2) = true
  ∧ ∀ ev, ev ∈ fs_emitted p (writeCephConfig p).2 →
      match ev with
      | FsMkdirAll path perm _ => path = cephConfigRoot ∧ perm = 493%Z
      | FsStat name _ => name = cephConfigPath ∨ name = keyRing
      | FsCreate name _ => name = keyRing
      | FsWriteFile name data perm _ =>
        name = cephConfigPath ∧ data = cephConfig ∧ perm = 384%Z
      end.
Proof.
  boot_cases; boot_log; (split; [simpl; by rewrite ?Heqb, ?Heqb0|]);
    intros ev Hev; repeat (apply elem_of_cons in Hev as [->|Hev]; [by auto|]);
    by apply elem_of_nil in Hev.
Qed.

(** X2. The first call that fails ends [writeCephConfig], and its error is the
    result: the result is the error of the last call made, no call before
    it failed (a [Stat] that finds no file is no failure), and an error
    that is returned is a failure of the last call. *)
Theorem writeCephConfig_first_failure p :
  ∃ init last,
    fs_emitted p (writeCephConfig p).2 = init ++ [last]
    ∧ forallb (λ ev, negb (fs_fatal ev)) init = true
    ∧ (writeCephConfig p).1 = fs_err last
    ∧ (is_Some (fs_err last) → fs_fatal last = true).
Proof.
  boot_cases; boot_log;
    first [ eexists [], _; split; [reflexivity|]
          | eexists [_], _; split; [reflexivity|]
          | eexists [_; _], _; split; [reflexivity|]
          | eexists [_; _; _], _; split; [reflexivity|]
          | eexists [_; _; _; _], _; split; [reflexivity|] ];
    simpl; rewrite ?Heqb, ?Heqb0; simpl;
    (split_and!; [done|done|]); try (by intros [? [=]]); done.
Qed.

Lemma ensured_inv (name : string) (log : list FsEvent) :
  ensured name log = true →
  log = [FsStat name None]
  ∨ ∃ e ev, log = [FsStat name (Some e); ev] ∧ IsNotExist e = true
      ∧ fs_writes ev = Some name ∧ fs_err ev = None.
Proof.
  destruct log as [|ev1 log]; [done|].
  destruct ev1 as [| n1 [e1|] | |]; try done.
  - destruct log as [|ev2 [|ev3 log]]; try done. simpl.
    intros [[[Hn He]%andb_prop Hw]%andb_prop Herr]%andb_prop.
    apply bool_decide_eq_true in Hn, Hw, Herr. subst n1. right. by exists e1, ev2.
  - destruct log as [|ev2 log]; [|done]. simpl.
    intros Hn%bool_decide_eq_true. subst n1. by left.
Qed.

(** X3. [writeCephConfig] returns nil exactly when the directory was made
    without error and then, first for the ceph.conf and next for the
    keyring, the file was found or was made without error. *)
Theorem writeCephConfig_success p :
  (writeCephConfig p).1 = None ↔
  ∃ conf ring,
    fs_emitted p (writeCephConfig p).2 = FsMkdirAll cephConfigRoot 493 None :: conf ++ ring
    ∧ ensured cephConfigPath conf = true
    ∧ ensured keyRing ring = true.
Proof.
  split.
  - boot_cases; boot_log; try discriminate; intros _;
      first [ by eexists [_], [_]; split; [reflexivity|]; simpl; rewrite ?Heqb, ?Heqb0
            | by eexists [_], [_; _]; split; [reflexivity|]; simpl; rewrite ?Heqb, ?Heqb0
            | by eexists [_; _], [_]; split; [reflexivity|]; simpl; rewrite ?Heqb, ?Heqb0
            | by eexists [_; _], [_; _]; split; [reflexivity|];
                simpl; rewrite ?Heqb, ?Heqb0 ].
  - intros (conf & ring & Hlog & Hconf & Hring).
    apply ensured_inv in Hconf as [->|(e1 & ev1 & -> & Hne1 & Hw1 & Herr1)];
      apply ensured_inv in Hring as [->|(e2 & ev2 & -> & Hne2 & Hw2 & Herr2)];
      revert Hlog; boot_cases; boot_log; intros Hlog; simplify_eq/=; try done;
      congruence.
Qed.

End BootstrapFacts.

Lemma writeCephConfig_no_clobber_witness :
  FixtureBoot.nodes (proc_world (writeCephConfig (FixtureBoot.proc_custom [])).2) !! cephConfigPath
    = Some "[global]"
  ∧ fs_emitted (FixtureBoot.proc_custom []) (writeCephConfig (FixtureBoot.proc_custom [])).2
    = [FsMkdirAll cephConfigRoot 493 None; FsStat cephConfigPath None;
       FsStat keyRing (Some FixtureBoot.enoent); FsCreate keyRing None]
  ∧ no_clobber None
      (fs_emitted (FixtureBoot.proc_custom [])
         (writeCephConfig (FixtureBoot.proc_custom [])).2) = true.
Proof.
  split; [vm_compute; reflexivity|]. split; [vm_compute; reflexivity|].
  apply (proj1 (writeCephConfig_no_clobber (FixtureBoot.proc_custom []))).
Defined.

Lemma writeCephConfig_first_failure_witness :
  (writeCephConfig (FixtureBoot.proc true [])).1 = Some FixtureBoot.erofs
  ∧ ∃ init last,
      fs_emitted (FixtureBoot.proc true []) (writeCephConfig (FixtureBoot.proc true [])).2
        = init ++ [last]
      ∧ forallb (λ ev, negb (fs_fatal ev)) init = true
      ∧ (writeCephConfig (FixtureBoot.proc true [])).1 = fs_err last
      ∧ (is_Some (fs_err last) → fs_fatal last = true).
Proof.
  split; [vm_compute; reflexivity|].
  apply (writeCephConfig_first_failure (FixtureBoot.proc true [])).
Defined.

Lemma writeCephConfig_success_witness :
  ∃ conf ring,
    fs_emitted (FixtureBoot.proc false []) (writeCephConfig (FixtureBoot.proc false [])).2
      = FsMkdirAll cephConfigRoot 493 None :: conf ++ ring
    ∧ ensured cephConfigPath conf = true
    ∧ ensured keyRing ring = true.
Proof.
  apply (proj1 (writeCephConfig_success (FixtureBoot.proc false []))).
  vm_compute. reflexivity.
Defined.


(** ** Histories of a store *)

Section HistoryFacts.
Context {World : Type} `{External World}.
Implicit Types (s : RBDMirrorStore World) (e : Env World).

Lemma With_success_allowed namespace s s' :
  WithRBDCommandInput namespace s = (None, s') → namespace ∈ allowedNamespaces s.
Proof.
  unfold WithRBDCommandInput.
  destruct (allowed (allowedNamespaces s) namespace) eqn:Hal; [|done].
  intros _. by apply allowed_elem.
Qed.

(** What an attempt does to the cache of inputs: nothing, or one new input
    for its namespace, which is allowed. *)
Lemma attempt_rbdCommandInput namespace poolName s :
  rbdCommandInput (attempt namespace poolName s).2 = rbdCommandInput s
  ∨ (rbdCommandInput s !! namespace = None
     ∧ namespace ∈ allowedNamespaces s
     ∧ ∃ in_, id in_ = "admin"
         ∧ rbdCommandInput (attempt namespace poolName s).2
           = <[namespace := in_]> (rbdCommandInput s)).
Proof.
  unfold attempt. destruct (rbdCommandInput s !! namespace) as [in_|] eqn:Hc.
  - left. rewrite Hc. by destruct (rbdImageStatus _ _ _) as [[st [err|]] e2].
  - destruct (WithRBDCommandInput namespace s) as [[err|] s1] eqn:HW.
    + left. by apply With_failure in HW.
    + right. pose proof (With_success_allowed _ _ _ HW) as Hal.
      apply With_success in HW as (in_ & HW & Hid).
      split_and!; [done..|]. exists in_. split; [done|].
      rewrite HW, lookup_insert_eq.
      by destruct (rbdImageStatus _ _ _) as [[st [err|]] e2].
Qed.

(** An attempt that gets to the fetch has an input for its namespace. *)
Lemma attempt_fetch_cached namespace poolName s :
  match (attempt namespace poolName s).1 with
  | FetchFailed _ | Fetched _ =>
    is_Some (rbdCommandInput (attempt namespace poolName s).2 !! namespace)
  | _ => True
  end.
Proof.
  unfold attempt. destruct (rbdCommandInput s !! namespace) as [in_|] eqn:Hc.
  - rewrite Hc. destruct (rbdImageStatus _ _ _) as [[st [err|]] e2]; simpl; by rewrite Hc.
  - destruct (WithRBDCommandInput namespace s) as [[err|] s1] eqn:HW; [done|].
    apply With_success in HW as (in_ & HW & Hid). rewrite HW, lookup_insert_eq.
    destruct (rbdImageStatus _ _ _) as [[st [err|]] e2]; simpl;
      by rewrite HW, lookup_insert_eq.
Qed.

(** A property of the two maps and the allow-list that attempts, deletions,
    the reset and the write of a fetched status keep is kept by every
    call. *)
Lemma call_invariant
    (P : gmap UID RBDMirrorPoolStatusVerbose → gmap string rbdCommandInputT →
         list string → Prop) :
  (∀ namespace poolName s,
     P (Store s) (rbdCommandInput s) (allowedNamespaces s) →
     P (Store s) (rbdCommandInput (attempt namespace poolName s).2) (allowedNamespaces s)) →
  (∀ m c l uid, P m c l → P (delete uid m) c l) →
  (∀ m c l, P m c l → P ∅ c l) →
  (∀ namespace poolName uid mirrorStatus s,
     P (Store s) (rbdCommandInput s) (allowedNamespaces s) →
     (attempt namespace poolName s).1 = Fetched mirrorStatus →
     P (<[uid := record poolName namespace mirrorStatus]> (Store s))
       (rbdCommandInput (attempt namespace poolName s).2) (allowedNamespaces s)) →
  ∀ op s,
    P (Store s) (rbdCommandInput s) (allowedNamespaces s) →
    P (Store (call op s).2) (rbdCommandInput (call op s).2) (allowedNamespaces (call op s).2).
Proof.
  intros Hattempt Hdelete Hreset Hwrite.
  assert (∀ obj s, P (Store s) (rbdCommandInput s) (allowedNamespaces s) →
            P (Store (Add obj s).2) (rbdCommandInput (Add obj s).2)
              (allowedNamespaces (Add obj s).2)) as HAdd.
  { intros obj s HP. destruct obj as [pool|meta|]; [|done..].
    destruct (Enabled (Mirroring (Spec pool))) eqn:Hen.
    - rewrite (Add_attempt pool s Hen).
      pose proof (Hattempt (Namespace (Meta pool)) (Name (Meta pool)) s HP) as Ha.
      pose proof (Hwrite (Namespace (Meta pool)) (Name (Meta pool)) (GetUID (Meta pool))) as Hw.
      specialize (λ st, Hw st s HP).
      pose proof (attempt_Store (Namespace (Meta pool)) (Name (Meta pool)) s) as HS.
      pose proof (attempt_allowedNamespaces (Namespace (Meta pool)) (Name (Meta pool)) s) as HL.
      destruct (attempt _ _ s) as [[cause|cause|st|] s1]; simpl in *;
        rewrite ?HS, ?HL; auto.
    - by rewrite (Add_disabled pool s Hen). }
  assert (∀ order s, P (Store s) (rbdCommandInput s) (allowedNamespaces s) →
            P (Store (Resync_range order s).2) (rbdCommandInput (Resync_range order s).2)
              (allowedNamespaces (Resync_range order s).2)) as HRange.
  { induction order as [|k order IH]; intros s HP; [done|].
    destruct (Store s !! k) as [v|] eqn:Hk.
    - rewrite (Resync_range_cons _ _ _ _ Hk). apply IH.
      rewrite Resync_body_attempt.
      pose proof (Hattempt (PoolNamespace v) (PoolName v) s HP) as Ha.
      pose proof (Hwrite (PoolNamespace v) (PoolName v) k) as Hw.
      specialize (λ st, Hw st s HP).
      pose proof (attempt_Store (PoolNamespace v) (PoolName v) s) as HS.
      pose proof (attempt_allowedNamespaces (PoolNamespace v) (PoolName v) s) as HL.
      destruct (attempt _ _ s) as [[cause|cause|st|] s1]; simpl in *;
        rewrite ?HS, ?HL; auto.
    - simpl. rewrite Hk. by apply IH. }
  intros op s HP. destruct op as [obj|obj|obj|list rv|order]; simpl.
  - by apply HAdd.
  - by apply HAdd.
  - destruct obj; simpl; auto.
  - unfold Replace. fold (Replace_start s).
    assert (P (Store (Replace_start s)) (rbdCommandInput (Replace_start s))
              (allowedNamespaces (Replace_start s))) as HP0 by (simpl; eapply Hreset, HP).
    revert HP0. generalize (Replace_start s). clear s HP.
    induction list as [|o rest IH]; intros s HP; simpl; [done|].
    specialize (HAdd o s HP).
    destruct (Add o s) as [[[err|]|] s1]; simpl in *; auto.
  - rewrite Resync_in_eq. simpl. apply (HRange order (Resync_start s)). by simpl.
Qed.

Lemma run_app (ops1 ops2 : list Op) s :
  (run ops1 s).1 = Done () → run (ops1 ++ ops2) s = run ops2 (run ops1 s).2.
Proof.
  revert s. induction ops1 as [|op ops1 IH]; intros s Hd; simpl in *; [done|].
  destruct (call op s) as [[r|] s1]; [by apply IH|done].
Qed.

Lemma call_returns (op : Op) s : (call op s).1 ≠ Panic.
Proof.
  destruct op as [obj|obj|obj|list rv|order]; simpl.
  - apply Add_returns.
  - apply Add_returns.
  - by destruct obj.
  - apply Replace_range_returns.
  - by rewrite Resync_in_eq.
Qed.

Lemma run_cons (op : Op) (ops : list Op) s :
  run (op :: ops) s = run ops (call op s).2.
Proof.
  simpl. pose proof (call_returns op s) as Hr.
  by destruct (call op s) as [[r|] s1].
Qed.

Lemma run_invariant
    (P : gmap UID RBDMirrorPoolStatusVerbose → gmap string rbdCommandInputT →
         list string → Prop) :
  (∀ op s,
     P (Store s) (rbdCommandInput s) (allowedNamespaces s) →
     P (Store (call op s).2) (rbdCommandInput (call op s).2)
       (allowedNamespaces (call op s).2)) →
  ∀ ops s,
    P (Store s) (rbdCommandInput s) (allowedNamespaces s) →
    P (Store (run ops s).2) (rbdCommandInput (run ops s).2) (allowedNamespaces (run ops s).2).
Proof.
  intros Hcall ops. induction ops as [|op ops IH]; intros s HP; [done|].
  rewrite run_cons. by apply IH, Hcall.
Qed.

Lemma consistent_attempt namespace poolName s :
  consistent s →
  (∀ ns in_, rbdCommandInput (attempt namespace poolName s).2 !! ns = Some in_ →
     ns ∈ allowedNamespaces s ∧ id in_ = "admin")
  ∧ (∀ uid v, Store s !! uid = Some v →
       is_Some (rbdCommandInput (attempt namespace poolName s).2 !! PoolNamespace v)).
Proof.
  intros [Hc Hr].
  destruct (attempt_rbdCommandInput namespace poolName s)
    as [->|(Hnone & Hal & in_ & Hid & ->)]; [done|].
  split.
  - intros ns in' [[<- <-]|[_ Hin]]%lookup_insert_Some; [done|by apply Hc].
  - intros uid v Hv. apply lookup_insert_is_Some'. right. by eapply Hr.
Qed.


Lemma run_consistent_inv (ops : list Op) s :
  consistent s →
  allowedNamespaces (run ops s).2 = allowedNamespaces s
  ∧ (∀ ns in_, rbdCommandInput (run ops s).2 !! ns = Some in_ →
       ns ∈ allowedNamespaces (run ops s).2 ∧ id in_ = "admin")
  ∧ (∀ uid v, Store (run ops s).2 !! uid = Some v →
       is_Some (rbdCommandInput (run ops s).2 !! PoolNamespace v)).
Proof.
  intros Hcons.
  pose (P := λ (m : gmap UID RBDMirrorPoolStatusVerbose) (c : gmap string rbdCommandInputT)
               (l : list string),
          l = allowedNamespaces s
          ∧ (∀ ns in_, c !! ns = Some in_ → ns ∈ l ∧ id in_ = "admin")
          ∧ (∀ uid v, m !! uid = Some v → is_Some (c !! PoolNamespace v))).
  apply (run_invariant P); [|by destruct Hcons].
  apply call_invariant; unfold P.
  - intros ns name s0 (Hl & Hc & Hr).
    destruct (consistent_attempt ns name s0) as [Hc' Hr']; [by split|]. done.
  - intros m c l uid (Hl & Hc & Hr). split_and!; [done..|].
    intros k v [_ Hv]%lookup_delete_Some. by eapply Hr.
  - intros m c l (Hl & Hc & Hr). split_and!; [done..|]. intros k v Hv. by simplify_map_eq.
  - intros ns name uid st s0 (Hl & Hc & Hr) Hat.
    destruct (consistent_attempt ns name s0) as [Hc' Hr']; [by split|].
    split_and!; [done..|].
    intros k v [[<- <-]|[_ Hv]]%lookup_insert_Some; [|by eapply Hr'].
    pose proof (attempt_fetch_cached ns name s0) as Hf. by rewrite Hat in Hf.
Qed.

(** X6. A consistent store stays consistent through every history of calls,
    and keeps its allow-list: inputs are cached for allowed namespaces
    only, with the id ["admin"], and every record in the map is of a pool
    in an allowed namespace, for which an input is cached. *)
Theorem run_consistent (ops : list Op) s :
  consistent s →
  consistent (run ops s).2
  ∧ allowedNamespaces (run ops s).2 = allowedNamespaces s
  ∧ ∀ uid v, Store (run ops s).2 !! uid = Some v →
      PoolNamespace v ∈ allowedNamespaces s.
Proof.
  intros Hcons. destruct (run_consistent_inv ops s Hcons) as (Hal & Hc & Hr).
  split_and!; [by split|done|].
  intros uid v Hv. destruct (Hr uid v Hv) as [in_ Hin].
  rewrite <- Hal. by destruct (Hc _ _ Hin).
Qed.

(** X7. An input, once cached, is never dropped and never changed by the write
    methods and [Resync]: no history of calls invalidates or refreshes the
    credentials of a namespace. *)
Theorem run_keeps_inputs (ops : list Op) s (namespace : string) (in_ : rbdCommandInputT) :
  rbdCommandInput s !! namespace = Some in_ →
  rbdCommandInput (run ops s).2 !! namespace = Some in_.
Proof.
  intros Hin.
  apply (run_invariant (λ _ c _, c !! namespace = Some in_)); [|done].
  apply (call_invariant (λ _ c _, c !! namespace = Some in_)); auto.
  - intros ns name s0 Hc. by apply attempt_rbdCommandInput_stable.
  - intros ns name uid st s0 Hc _. by apply attempt_rbdCommandInput_stable.
Qed.

(** *** The mutex *)

Lemma well_locked_app (h : bool) (a b : list Event) :
  well_locked h (a ++ b) = well_locked h a && well_locked (mutex_after h a) b.
Proof.
  revert h. induction a as [|ev a IH]; intros h; [done|].
  destruct ev; simpl; rewrite ?IH; try done; by rewrite andb_assoc.
Qed.

Lemma mutex_after_app (h : bool) (a b : list Event) :
  mutex_after h (a ++ b) = mutex_after (mutex_after h a) b.
Proof. revert h. induction a as [|ev a IH]; intros h; [done|]. by destruct ev; simpl. Qed.

Lemma mutex_at_calls_app (h : bool) (a b : list Event) :
  mutex_at_calls h (a ++ b) = mutex_at_calls h a ++ mutex_at_calls (mutex_after h a) b.
Proof.
  revert h. induction a as [|ev a IH]; intros h; [done|].
  destruct ev; simpl; by rewrite ?IH.
Qed.

(** A trace [evs] that starts and ends with the mutex in state [h], keeps
    the discipline, and makes its outside calls with the mutex in state
    [b]. *)
Lemma external_trace (h : bool) (evs : list Event) :
  forallb is_external evs = true →
  well_locked h evs = true ∧ mutex_after h evs = h
  ∧ Forall (eq h) (mutex_at_calls h evs).
Proof.
  induction evs as [|ev evs IH]; [done|]. simpl.
  intros [Hev Hall]%andb_prop. destruct (IH Hall) as (Hw & Hm & Hc).
  destruct ev; try done; simpl; split_and!; try done; by constructor.
Qed.

Lemma trace_steps (t t1 t2 : list Event) (h1 h2 h3 : bool) (b : bool)
    (evs1 evs2 : list Event) :
  t1 = t ++ evs1 →
  t2 = t1 ++ evs2 →
  well_locked h1 evs1 = true ∧ mutex_after h1 evs1 = h2
    ∧ Forall (eq b) (mutex_at_calls h1 evs1) →
  well_locked h2 evs2 = true ∧ mutex_after h2 evs2 = h3
    ∧ Forall (eq b) (mutex_at_calls h2 evs2) →
  ∃ evs, t2 = t ++ evs
    ∧ well_locked h1 evs = true ∧ mutex_after h1 evs = h3
    ∧ Forall (eq b) (mutex_at_calls h1 evs).
Proof.
  intros Ht1 Ht2 (Hw1 & Hm1 & Hc1) (Hw2 & Hm2 & Hc2).
  exists (evs1 ++ evs2). rewrite Ht2, Ht1, <- app_assoc.
  rewrite well_locked_app, mutex_after_app, mutex_at_calls_app, Hm1, Hw1, Hw2, Hm2.
  split_and!; try done. by apply Forall_app.
Qed.

Lemma attempt_mutex namespace poolName s (h : bool) :
  ∃ evs, trace (env (attempt namespace poolName s).2) = trace (env s) ++ evs
    ∧ well_locked h evs = true ∧ mutex_after h evs = h
    ∧ Forall (eq h) (mutex_at_calls h evs).
Proof.
  destruct (attempt_trace namespace poolName s) as (evs & Ht & Hex & _).
  exists evs. split; [done|]. by apply external_trace.
Qed.

Lemma Add_mutex obj s :
  ∃ evs, trace (env (Add obj s).2) = trace (env s) ++ evs
    ∧ well_locked false evs = true ∧ mutex_after false evs = false
    ∧ Forall (eq false) (mutex_at_calls false evs).
Proof.
  destruct obj as [pool|meta|]; [|by exists []; rewrite app_nil_r; split_and!; try done; constructor..].
  destruct (Enabled (Mirroring (Spec pool))) eqn:Hen.
  - rewrite (Add_attempt pool s Hen).
    destruct (attempt_mutex (Namespace (Meta pool)) (Name (Meta pool)) s false)
      as (evs & Ht & Hw).
    destruct (attempt _ _ s) as [[cause|cause|st|] s1]; simpl in *.
    + eapply (trace_steps _ _ _ false false false false evs [_]); try done;
        try (simpl; split_and!; try done; by repeat constructor).
    + by exists evs.
    + eapply (trace_steps _ _ _ false false false false evs [_; _; _]);
        [done|by rewrite <- !app_assoc|done|].
      simpl; split_and!; try done; by repeat constructor.
    + by exists evs.
  - rewrite (Add_disabled pool s Hen). eexists [_]. simpl. split_and!; try done; by repeat constructor.
Qed.

Lemma Resync_range_mutex (order : list UID) s :
  ∃ evs, trace (env (Resync_range order s).2) = trace (env s) ++ evs
    ∧ well_locked true evs = true ∧ mutex_after true evs = true
    ∧ Forall (eq true) (mutex_at_calls true evs).
Proof.
  revert s. induction order as [|k order IH]; intros s.
  { exists []. rewrite app_nil_r. split_and!; try done; constructor. }
  destruct (Store s !! k) as [v|] eqn:Hk; [|simpl; rewrite Hk; apply IH].
  rewrite (Resync_range_cons _ _ _ _ Hk).
  destruct (IH (Resync_body k v s).2) as (evs2 & Ht2 & Hw2).
  assert (∃ evs, trace (env (Resync_body k v s).2) = trace (env s) ++ evs
            ∧ well_locked true evs = true ∧ mutex_after true evs = true
            ∧ Forall (eq true) (mutex_at_calls true evs)) as (evs1 & Ht1 & Hw1).
  { rewrite Resync_body_attempt.
    destruct (attempt_mutex (PoolNamespace v) (PoolName v) s true) as (evs & Ht & Hw).
    destruct (attempt _ _ s) as [[cause|cause|st|] s1]; simpl in *.
    - eapply (trace_steps _ _ _ true true true true evs [_]); try done;
        try (simpl; split_and!; try done; by repeat constructor).
    - eapply (trace_steps _ _ _ true true true true evs [_]); try done;
        try (simpl; split_and!; try done; by repeat constructor).
    - eapply (trace_steps _ _ _ true true true true evs [_]); try done;
        try (simpl; split_and!; try done; by repeat constructor).
    - by exists evs. }
  by eapply (trace_steps _ _ _ true true true true evs1 evs2).
Qed.

Lemma call_mutex (op : Op) s :
  ∃ evs, trace (env (call op s).2) = trace (env s) ++ evs
    ∧ well_locked false evs = true ∧ mutex_after false evs = false
    ∧ Forall (eq (match op with OpResync _ => true | _ => false end))
        (mutex_at_calls false evs).
Proof.
  destruct op as [obj|obj|obj|list rv|order]; simpl.
  - apply Add_mutex.
  - apply Add_mutex.
  - destruct obj; simpl;
      first [ eexists [_; _; _]; rewrite <- !app_assoc; simpl;
              split_and!; try done; by repeat constructor
            | exists []; rewrite app_nil_r; split_and!; try done; by constructor ].
  - unfold Replace. fold (Replace_start s).
    assert (∃ evs, trace (env (Replace_start s)) = trace (env s) ++ evs
              ∧ well_locked false evs = true ∧ mutex_after false evs = false
              ∧ Forall (eq false) (mutex_at_calls false evs)) as (evs0 & Ht0 & Hw0).
    { eexists [_; _; _]. simpl. rewrite <- !app_assoc. simpl.
      split_and!; try done; by repeat constructor. }
    assert (∀ s0, ∃ evs, trace (env (Replace_range list s0).2) = trace (env s0) ++ evs
              ∧ well_locked false evs = true ∧ mutex_after false evs = false
              ∧ Forall (eq false) (mutex_at_calls false evs)) as Hrange.
    { induction list as [|o rest IH]; intros s0; simpl.
      { exists []. rewrite app_nil_r. split_and!; try done; constructor. }
      destruct (Add_mutex o s0) as (evs1 & Ht1 & Hw1).
      destruct (Add o s0) as [[[err|]|] s1]; simpl in *; try by exists evs1.
      destruct (IH s1) as (evs2 & Ht2 & Hw2).
      by eapply (trace_steps _ _ _ false false false false evs1 evs2). }
    destruct (Hrange (Replace_start s)) as (evs1 & Ht1 & Hw1).
    by eapply (trace_steps _ _ _ false false false false evs0 evs1).
  - rewrite Resync_in_eq. simpl.
    destruct (Resync_range_mutex order (Resync_start s)) as (evs & Ht & Hw & Hm & Hc).
    exists ([EvInfo LogResyncStarted; EvLock] ++ evs ++ [EvInfo LogResyncEnded; EvUnlock]).
    split.
    { rewrite Ht. simpl. by rewrite <- !app_assoc. }
    rewrite !well_locked_app, !mutex_after_app, !mutex_at_calls_app. simpl.
    rewrite Hw, Hm. simpl. split_and!; try done. by rewrite app_nil_r.
Qed.

(** X8. From a released mutex, every history of calls keeps the discipline:
    [Lock] and [Unlock] alternate, every write to the map ([Store[uid] =],
    [delete], the reset) is made with the mutex held, and the mutex is
    released when the history ends. *)
Theorem run_mutex_discipline (ops : list Op) s :
  well_locked false (emitted s (run ops s).2) = true
  ∧ mutex_after false (emitted s (run ops s).2) = false.
Proof.
  assert (∃ evs, trace (env (run ops s).2) = trace (env s) ++ evs
            ∧ well_locked false evs = true ∧ mutex_after false evs = false)
    as (evs & Ht & Hw & Hm).
  { revert s. induction ops as [|op ops IH]; intros s.
    { exists []. by rewrite app_nil_r. }
    rewrite run_cons.
    destruct (call_mutex op s) as (evs1 & Ht1 & Hw1 & Hm1 & _).
    destruct (IH (call op s).2) as (evs2 & Ht2 & Hw2 & Hm2).
    exists (evs1 ++ evs2). rewrite Ht2, Ht1, <- app_assoc.
    by rewrite well_locked_app, mutex_after_app, Hw1, Hm1, Hw2, Hm2. }
  by rewrite (emitted_app _ _ _ Ht).
Qed.

(** X9. [Resync] makes every call that leaves the process (secrets, configmaps
    and the [rbd] command) with the mutex held; [Add], [Update], [Delete]
    and [Replace] make all of theirs with the mutex released. *)
Theorem call_mutex_at_calls (op : Op) s :
  Forall (eq (match op with OpResync _ => true | _ => false end))
    (mutex_at_calls false (emitted s (call op s).2)).
Proof.
  destruct (call_mutex op s) as (evs & Ht & _ & _ & Hc).
  by rewrite (emitted_app _ _ _ Ht).
Qed.

(** *** What the calls fetch *)

Lemma rbdImageStatus_fetched in_ poolName e mirrorStatus e2 :
  rbdImageStatus in_ poolName e = ((mirrorStatus, None), e2) →
  ∃ out,
    CombinedOutput "rbd" (rbdArgs in_ poolName) (world e) = ((out, None), world e2)
    ∧ UnmarshalStatus out = (mirrorStatus, None)
    ∧ trace e2 = trace e ++ [EvExec "rbd" (rbdArgs in_ poolName)].
Proof.
  unfold rbdImageStatus, execCommand. destruct (decide _); [done|].
  destruct (CombinedOutput _ _ _) as [[out [err|]] w]; [done|].
  intros [= Hu <-]. by exists out.
Qed.


(** X10. When [Add] of a pool with mirroring on returns nil, the map holds,
    under the pool's UID, the pool's name and namespace with the status
    decoded from the output of the [rbd] command that this call ran with
    the input cached for the namespace; the other entries are as before. *)
Theorem Add_stores_fetched_status (pool : CephBlockPool) s s' :
  Enabled (Mirroring (Spec pool)) = true →
  Add (ObjCephBlockPool pool) s = (Done None, s') →
  ∃ in_ w out mirrorStatus,
    rbdCommandInput s' !! Namespace (Meta pool) = Some in_
    ∧ CombinedOutput "rbd" (rbdArgs in_ (Name (Meta pool))) w = ((out, None), world (env s'))
    ∧ UnmarshalStatus out = (mirrorStatus, None)
    ∧ Store s' !! GetUID (Meta pool)
      = Some (record (Name (Meta pool)) (Namespace (Meta pool)) mirrorStatus)
    ∧ (∀ uid, uid ≠ GetUID (Meta pool) → Store s' !! uid = Store s !! uid)
    ∧ dom (Store s') = {[ GetUID (Meta pool) ]} ∪ dom (Store s).
Proof.
  intros Hen HA. rewrite (Add_attempt pool s Hen) in HA.
  pose proof (attempt_Store (Namespace (Meta pool)) (Name (Meta pool)) s) as HS.
  assert (∀ st s1, attempt (Namespace (Meta pool)) (Name (Meta pool)) s = (Fetched st, s1) →
            ∃ in_ w out,
              rbdCommandInput s1 !! Namespace (Meta pool) = Some in_
              ∧ CombinedOutput "rbd" (rbdArgs in_ (Name (Meta pool))) w
                = ((out, None), world (env s1))
              ∧ UnmarshalStatus out = (st, None)) as Hfetch.
  { intros st s1. unfold attempt.
    destruct (rbdCommandInput s !! Namespace (Meta pool)) as [in_|] eqn:Hc.
    - rewrite Hc. destruct (rbdImageStatus _ _ _) as [[st' [err|]] e2] eqn:Hrbd; [done|].
      intros [= <- <-]. apply rbdImageStatus_fetched in Hrbd as (out & Hout & Hu & _).
      by exists in_, (world (env s)), out.
    - destruct (WithRBDCommandInput _ s) as [[err|] s0] eqn:HW; [done|].
      apply With_success in HW as (in_ & HW & _). rewrite HW, lookup_insert_eq.
      destruct (rbdImageStatus _ _ _) as [[st' [err|]] e2] eqn:Hrbd; [done|].
      intros [= <- <-]. apply rbdImageStatus_fetched in Hrbd as (out & Hout & Hu & _).
      exists in_, (world (env s0)), out. simpl. by rewrite HW, lookup_insert_eq. }
  destruct (attempt _ _ s) as [[cause|cause|st|] s1]; simplify_eq/=.
  destruct (Hfetch st s1 eq_refl) as (in_ & w & out & Hin & Hout & Hu).
  exists in_, w, out, st. rewrite HS. split_and!; try done.
  - apply lookup_insert_eq.
  - intros uid Hne. by rewrite lookup_insert_ne.
  - apply dom_insert_L.
Qed.

(** X11. When [Replace] returns nil, every item of the list was a pool, and the
    keys of the map are the UIDs of the listed pools with mirroring on:
    entries the map held before, for pools that are not listed again, are
    gone.  Every record has the name and namespace of a listed pool. *)
Theorem Replace_success (list : list Obj) (resourceVersion : string) s s' :
  Replace list resourceVersion s = (Done None, s') →
  Forall (λ o, ∃ pool, o = ObjCephBlockPool pool) list
  ∧ dom (Store s') = list_to_set ((GetUID ∘ Meta) <$> mirrored list)
  ∧ (∀ uid r, Store s' !! uid = Some r →
       ∃ pool, pool ∈ mirrored list ∧ GetUID (Meta pool) = uid
         ∧ PoolName r = Name (Meta pool) ∧ PoolNamespace r = Namespace (Meta pool)).
Proof.
  unfold Replace. fold (Replace_start s). intros HR.
  destruct (Replace_range_Store _ _ _ HR) as [Hdom Hrec].
  split_and!.
  - revert HR. generalize (Replace_start s). clear.
    induction list as [|o rest IH]; intros s0 HR; [constructor|]. simpl in HR.
    destruct (Add o s0) as [[[err|]|] s1] eqn:HA; try done.
    constructor; [|by eapply IH].
    apply Add_success in HA as (pool & -> & _). by exists pool.
  - rewrite Hdom. simpl. rewrite dom_empty_L. apply (left_id_L ∅ (∪)).
  - intros uid r Hr. destruct (Hrec uid r Hr) as [Hemp|?]; [|done].
    simpl in Hemp. by rewrite lookup_empty in Hemp.
Qed.

(** X12. The errors of [WithRBDCommandInput] and how far it got.  It returns
    one of eight errors, each with the namespace.  The not-allowed error
    comes before any read; the two errors of the secret after the read of
    the secret alone, so the configmap is read only when the secret has its
    key; the five errors of the configuration after both reads.  No error
    changes the map or the cache of inputs. *)
Theorem WithRBDCommandInput_errors (namespace : string) s err s' :
  WithRBDCommandInput namespace s = (Some err, s') →
  Store s' = Store s ∧ rbdCommandInput s' = rbdCommandInput s
  ∧ match err with
    | NotAllowedNamespace ns => ns = namespace ∧ s' = s
    | SecretLookupError ns _ | SecretFieldMissing ns =>
      ns = namespace ∧ emitted s s' = [EvSecretsGet namespace "rook-ceph-mon"]
    | ConfigLookupError ns _ | ConfigFieldMissing ns | ConfigParseError ns _
    | NoClusterConfig ns | NoMonitors ns =>
      ns = namespace
      ∧ emitted s s' = [EvSecretsGet namespace "rook-ceph-mon";
                        EvConfigMapsGet namespace "rook-ceph-csi-config"]
    | _ => False
    end.
Proof.
  unfold WithRBDCommandInput. destruct (negb _); [by intros [= <- <-]|].
  destruct (secretsGet _ _ _) as [r e1] eqn:Hs. apply secretsGet_trace in Hs.
  destruct r as [e|secret].
  { intros [= <- <-]. split_and!; try done. by apply emitted_app. }
  destruct (_ !! _) as [key|].
  2:{ intros [= <- <-]. split_and!; try done. by apply emitted_app. }
  destruct (configMapsGet _ _ _) as [r e2] eqn:Hc. apply configMapsGet_trace in Hc.
  rewrite Hs, <- app_assoc in Hc.
  destruct r as [e|configmap].
  { intros [= <- <-]. split_and!; try done. by apply emitted_app. }
  destruct (_ !! _) as [data|].
  2:{ intros [= <- <-]. split_and!; try done. by apply emitted_app. }
  destruct (UnmarshalClusterConfig data) as [cfg [e|]].
  { intros [= <- <-]. split_and!; try done. by apply emitted_app. }
  destruct cfg as [|c cfg].
  { intros [= <- <-]. split_and!; try done. by apply emitted_app. }
  destruct (Monitors c) as [|m ms]; [|done].
  intros [= <- <-]. split_and!; try done. by apply emitted_app.
Qed.

(** X13. In a consistent store, [Add] of a pool with mirroring on from a
    namespace outside the allow-list returns the not-allowed error and
    does nothing but log it: no secret, no configmap, no command. *)
Theorem Add_foreign_namespace (pool : CephBlockPool) s :
  consistent s →
  Enabled (Mirroring (Spec pool)) = true →
  Namespace (Meta pool) ∉ allowedNamespaces s →
  Add (ObjCephBlockPool pool) s =
    (Done (Some (RbdCommandInputError (Namespace (Meta pool)) (Name (Meta pool))
                   (NotAllowedNamespace (Namespace (Meta pool))))),
     note (EvError (LogInitFailed (Namespace (Meta pool)) (Name (Meta pool))
                      (NotAllowedNamespace (Namespace (Meta pool))))) s)
  ∧ filter is_external (emitted s (Add (ObjCephBlockPool pool) s).2) = [].
Proof.
  intros [Hc _] Hen Hout.
  assert (rbdCommandInput s !! Namespace (Meta pool) = None) as Hnone.
  { destruct (rbdCommandInput s !! Namespace (Meta pool)) as [in_|] eqn:Hin; [|done].
    by destruct (Hc _ _ Hin). }
  assert (WithRBDCommandInput (Namespace (Meta pool)) s
          = (Some (NotAllowedNamespace (Namespace (Meta pool))), s)) as HW.
  { unfold WithRBDCommandInput.
    destruct (allowed (allowedNamespaces s) (Namespace (Meta pool))) eqn:Hal; [|done].
    by apply allowed_elem in Hal. }
  assert (Add (ObjCephBlockPool pool) s =
    (Done (Some (RbdCommandInputError (Namespace (Meta pool)) (Name (Meta pool))
                   (NotAllowedNamespace (Namespace (Meta pool))))),
     note (EvError (LogInitFailed (Namespace (Meta pool)) (Name (Meta pool))
                      (NotAllowedNamespace (Namespace (Meta pool))))) s)) as HA.
  { rewrite (Add_attempt pool s Hen).
    by rewrite (attempt_resolve_failed _ _ _ _ _ Hnone HW). }
  split; [done|]. rewrite HA. simpl.
  by rewrite (emitted_app _ _ [EvError (LogInitFailed (Namespace (Meta pool))
                 (Name (Meta pool)) (NotAllowedNamespace (Namespace (Meta pool))))]).
Qed.


(** X15. [Delete] after [Add] of one object leaves what [Delete] alone leaves:
    whether [Add] wrote a record, skipped the pool or failed, the map is
    the initial one without the object's UID.  When the UID had no entry,
    the map is the initial one. *)
Theorem Add_then_Delete (obj : Obj) (o : ObjectMeta) s :
  Accessor obj = inr o →
  (Delete obj (Add obj s).2).1 = Done None
  ∧ Store (Delete obj (Add obj s).2).2 = delete (GetUID o) (Store s)
  ∧ (Store s !! GetUID o = None → Store (Delete obj (Add obj s).2).2 = Store s).
Proof.
  intros Hacc.
  assert (Store (Delete obj (Add obj s).2).2 = delete (GetUID o) (Store s)) as HS.
  { unfold Delete. rewrite Hacc. simpl.
    destruct obj as [pool|meta|]; simplify_eq/=; [|done].
    destruct (Enabled (Mirroring (Spec pool))) eqn:Hen.
    - rewrite (Add_attempt pool s Hen).
      pose proof (attempt_Store (Namespace (Meta pool)) (Name (Meta pool)) s) as HS.
      destruct (attempt _ _ s) as [[cause|cause|st|] s1]; simpl in *; rewrite ?HS; try done.
      apply delete_insert_eq.
    - by rewrite (Add_disabled pool s Hen). }
  split_and!; [unfold Delete; by rewrite Hacc|done|].
  intros Hnone. rewrite HS. by apply delete_id.
Qed.

End HistoryFacts.

Lemma Add_then_Delete_witness :
  Store (Add (Fixture.pool "pool3" "ns1" "u3" true)
           (Fixture.store2 [(Fixture.statusJSON "OK", None)])).2 !! "u3"
    = Some (record "pool3" "ns1" (Fixture.statusWith "OK"))
  ∧ Store (Delete (Fixture.pool "pool3" "ns1" "u3" true)
             (Add (Fixture.pool "pool3" "ns1" "u3" true)
                (Fixture.store2 [(Fixture.statusJSON "OK", None)])).2).2
    = Store (Fixture.store2 [(Fixture.statusJSON "OK", None)]).
Proof.
  split; [vm_compute; reflexivity|].
  destruct (Add_then_Delete (Fixture.pool "pool3" "ns1" "u3" true)
              {| Name := "pool3"; Namespace := "ns1"; GetUID := "u3" |}
              (Fixture.store2 [(Fixture.statusJSON "OK", None)]) eq_refl)
    as (_ & _ & Hsame).
  apply Hsame. vm_compute. reflexivity.
Defined.

Lemma run_consistent_witness :
  consistent
    (run FixtureBoot.history1
       (Fixture.store1 [(Fixture.statusJSON "OK", None); (Fixture.statusJSON "WARNING", None);
                        (Fixture.statusJSON "OK", None)])).2
  ∧ allowedNamespaces
      (run FixtureBoot.history1
         (Fixture.store1 [(Fixture.statusJSON "OK", None); (Fixture.statusJSON "WARNING", None);
                          (Fixture.statusJSON "OK", None)])).2
    = ["ns1"; "ns2"]
  ∧ Store
      (run FixtureBoot.history1
         (Fixture.store1 [(Fixture.statusJSON "OK", None); (Fixture.statusJSON "WARNING", None);
                          (Fixture.statusJSON "OK", None)])).2
    = {[ "u1" := record "pool1" "ns1" (Fixture.statusWith "OK") ]}.
Proof.
  destruct (run_consistent FixtureBoot.history1
              (Fixture.store1 [(Fixture.statusJSON "OK", None);
                               (Fixture.statusJSON "WARNING", None);
                               (Fixture.statusJSON "OK", None)]))
    as (Hcons & Hal & _).
  - split; simpl; intros ? ? Hin; by rewrite lookup_empty in Hin.
  - split_and!; [exact Hcons|exact Hal|]. vm_compute. reflexivity.
Defined.

Lemma run_keeps_inputs_witness :
  rbdCommandInput (run FixtureBoot.history1 (FixtureBoot.store4 [])).2 !! "ns1"
    = Some Fixture.admin1.
Proof.
  apply (run_keeps_inputs FixtureBoot.history1 (FixtureBoot.store4 []) "ns1" Fixture.admin1).
  vm_compute. reflexivity.
Defined.

Lemma Add_stores_fetched_status_witness :
  ∃ in_ w out mirrorStatus,
    rbdCommandInput
      (Add (Fixture.pool "pool1" "ns1" "u1" true)
         (Fixture.store1 [(Fixture.statusJSON "WARNING", None)])).2 !! "ns1" = Some in_
    ∧ CombinedOutput "rbd" (rbdArgs in_ "pool1") w
      = ((out, None),
         world (env (Add (Fixture.pool "pool1" "ns1" "u1" true)
                       (Fixture.store1 [(Fixture.statusJSON "WARNING", None)])).2))
    ∧ UnmarshalStatus out = (mirrorStatus, None)
    ∧ Store (Add (Fixture.pool "pool1" "ns1" "u1" true)
               (Fixture.store1 [(Fixture.statusJSON "WARNING", None)])).2 !! "u1"
      = Some (record "pool1" "ns1" mirrorStatus)
    ∧ (∀ uid, uid ≠ "u1" →
         Store (Add (Fixture.pool "pool1" "ns1" "u1" true)
                  (Fixture.store1 [(Fixture.statusJSON "WARNING", None)])).2 !! uid
         = Store (Fixture.store1 [(Fixture.statusJSON "WARNING", None)]) !! uid)
    ∧ dom (Store (Add (Fixture.pool "pool1" "ns1" "u1" true)
                    (Fixture.store1 [(Fixture.statusJSON "WARNING", None)])).2)
      = {[ "u1" ]} ∪ dom (Store (Fixture.store1 [(Fixture.statusJSON "WARNING", None)])).
Proof.
  apply (Add_stores_fetched_status (Fixture.cephBlockPool "pool1" "ns1" "u1" true)
           (Fixture.store1 [(Fixture.statusJSON "WARNING", None)])).
  - reflexivity.
  - vm_compute. reflexivity.
Defined.

Lemma Replace_success_witness :
  Store (Fixture.store2 [(Fixture.statusJSON "WARNING", None)]) !! "u2"
    = Some (record "pool2" "ns2" (Fixture.statusWith "OK"))
  ∧ dom (Store (Replace [Fixture.pool "pool1" "ns1" "u1" true;
                         Fixture.pool "pool9" "ns1" "u9" false] "7"
                  (Fixture.store2 [(Fixture.statusJSON "WARNING", None)])).2)
    = {[ "u1" ]}.
Proof.
  split; [vm_compute; reflexivity|].
  destruct (Replace_success
              [Fixture.pool "pool1" "ns1" "u1" true; Fixture.pool "pool9" "ns1" "u9" false]
              "7" (Fixture.store2 [(Fixture.statusJSON "WARNING", None)])
              (Replace [Fixture.pool "pool1" "ns1" "u1" true;
                        Fixture.pool "pool9" "ns1" "u9" false] "7"
                 (Fixture.store2 [(Fixture.statusJSON "WARNING", None)])).2)
    as (_ & Hdom & _).
  - vm_compute. reflexivity.
  - rewrite Hdom. simpl. apply (right_id_L ∅ (∪)).
Defined.

Lemma WithRBDCommandInput_errors_witness :
  emitted (Fixture.store1 []) (WithRBDCommandInput "ns2" (Fixture.store1 [])).2
    = [EvSecretsGet "ns2" "rook-ceph-mon"]
  ∧ rbdCommandInput (WithRBDCommandInput "ns2" (Fixture.store1 [])).2 = ∅.
Proof.
  destruct (WithRBDCommandInput_errors "ns2" (Fixture.store1 [])
              (SecretLookupError "ns2" (Foreign "secrets not found"))
              (WithRBDCommandInput "ns2" (Fixture.store1 [])).2)
    as (_ & Hcache & _ & Hev).
  - vm_compute. reflexivity.
  - split; [exact Hev|exact Hcache].
Defined.

Lemma Add_foreign_namespace_witness :
  filter is_external
    (emitted (FixtureBoot.store4 [])
       (Add (Fixture.pool "pool5" "kube-system" "u5" true) (FixtureBoot.store4 [])).2) = []
  ∧ (Add (Fixture.pool "pool5" "kube-system" "u5" true) (FixtureBoot.store4 [])).1
    = Done (Some (RbdCommandInputError "kube-system" "pool5"
                    (NotAllowedNamespace "kube-system"))).
Proof.
  destruct (Add_foreign_namespace (Fixture.cephBlockPool "pool5" "kube-system" "u5" true)
              (FixtureBoot.store4 [])) as (HA & Hev).
  - split; simpl.
    + intros ns in_ [<- <-]%lookup_singleton_Some. split; [by left|done].
    + intros uid v [[<- <-]|[_ [<- <-]%lookup_singleton_Some]]%lookup_insert_Some;
        simpl; by rewrite lookup_singleton_eq.
  - reflexivity.
  - simpl. intros Hin. apply allowed_elem in Hin. vm_compute in Hin. discriminate Hin.
  - split; [exact Hev|]. unfold Fixture.pool. by rewrite HA.
Defined.



(** ** The constructor *)

Section ConstructorFacts.
Context {World Kubeconfig : Type}
  `{External World} `{FileSystem World} `{ClientFactory World Kubeconfig}.
Implicit Types (s : RBDMirrorStore World) (p : Proc World).

(** X4. [NewRBDMirrorStore] returns a store only when the bootstrap returned
    nil; when the bootstrap fails it panics, without making the client.
    The store starts with an empty map and an empty cache, and the
    allow-list of the options stays with it: after every history of calls,
    each record and each cached input is of a namespace of the options'
    allow-list, and every other namespace is refused without a read. *)
Theorem NewRBDMirrorStore_allow_list (opts : Options Kubeconfig) p (ops : list Op) :
  (∀ err, (writeCephConfig p).1 = Some err →
     NewRBDMirrorStore opts p = (Panic, (writeCephConfig p).2))
  ∧ ∀ s0 p',
      NewRBDMirrorStore opts p = (Done s0, p') →
      (writeCephConfig p).1 = None
      ∧ fslog p' = fslog (writeCephConfig p).2
      ∧ Store s0 = ∅ ∧ rbdCommandInput s0 = ∅ ∧ trace (env s0) = []
      ∧ allowedNamespaces (run ops s0).2 = AllowedNamespaces opts
      ∧ (∀ uid v, Store (run ops s0).2 !! uid = Some v →
           PoolNamespace v ∈ AllowedNamespaces opts)
      ∧ (∀ namespace in_, rbdCommandInput (run ops s0).2 !! namespace = Some in_ →
           namespace ∈ AllowedNamespaces opts ∧ id in_ = "admin")
      ∧ (∀ namespace, namespace ∉ AllowedNamespaces opts →
           WithRBDCommandInput namespace (run ops s0).2
           = (Some (NotAllowedNamespace namespace), (run ops s0).2)).
Proof.
  unfold NewRBDMirrorStore. split.
  - intros err Herr. destruct (writeCephConfig p) as [r p1]. simpl in Herr. by subst r.
  - intros s0 p'. destruct (writeCephConfig p) as [[err|] p1]; [done|].
    destruct (NewForConfigOrDie _ _) as [[[]|] w]; [|done].
    intros [= <- <-]. simpl.
    destruct (run_consistent_inv ops
                {| Store := ∅; rbdCommandInput := ∅;
                   allowedNamespaces := AllowedNamespaces opts;
                   env := {| world := w; trace := [] |} |}) as (Hal & Hc & Hr).
    { split; simpl; intros ? ? Hin; by rewrite lookup_empty in Hin. }
    simpl in Hal. split_and!; try done.
    + intros uid v Hv. destruct (Hr uid v Hv) as [in_ Hin].
      rewrite <- Hal. by destruct (Hc _ _ Hin).
    + intros ns in_ Hin. rewrite <- Hal. by apply Hc.
    + intros ns Hout. unfold WithRBDCommandInput. rewrite Hal.
      destruct (allowed (AllowedNamespaces opts) ns) eqn:Ha; [|done].
      by apply allowed_elem in Ha.
Qed.

End ConstructorFacts.

Lemma NewRBDMirrorStore_allow_list_witness :
  NewRBDMirrorStore FixtureBoot.opts1 (FixtureBoot.proc true []) =
    (Panic, (writeCephConfig (FixtureBoot.proc true [])).2)
  ∧ allowedNamespaces
      (run FixtureBoot.history1 (FixtureBoot.store0 [(Fixture.statusJSON "OK", None)])).2
    = ["ns1"]
  ∧ WithRBDCommandInput "ns2"
      (run FixtureBoot.history1 (FixtureBoot.store0 [(Fixture.statusJSON "OK", None)])).2
    = (Some (NotAllowedNamespace "ns2"),
       (run FixtureBoot.history1 (FixtureBoot.store0 [(Fixture.statusJSON "OK", None)])).2).
Proof.
  split.
  - apply (proj1 (NewRBDMirrorStore_allow_list FixtureBoot.opts1 (FixtureBoot.proc true []) [])
             FixtureBoot.erofs).
    vm_compute. reflexivity.
  - destruct (proj2 (NewRBDMirrorStore_allow_list FixtureBoot.opts1
                       (FixtureBoot.proc false [(Fixture.statusJSON "OK", None)])
                       FixtureBoot.history1)
                (FixtureBoot.store0 [(Fixture.statusJSON "OK", None)])
                (NewRBDMirrorStore FixtureBoot.opts1
                   (FixtureBoot.proc false [(Fixture.statusJSON "OK", None)])).2)
      as (_ & _ & _ & _ & _ & Hal & _ & _ & Hrefuse).
    + vm_compute. reflexivity.
    + split; [exact Hal|]. apply Hrefuse. simpl.
      intros Hin. apply allowed_elem in Hin. vm_compute in Hin. discriminate Hin.
Defined.


(** ** The deployment tool *)

Section DeployFacts.
Context {World T : Type} `{DeployManager World T}.

Ltac main_cases f :=
  unfold main;
  repeat match goal with
         | |- context [decide ?P] => destruct (decide P)
         | |- context [NewDeployManager ?w] => destruct (NewDeployManager w) as [? ?]
         | |- context [arbiterEnabled f] => destruct (arbiterEnabled f)
         | |- context [DumpYAML ?t ?a ?b ?w] => destruct (DumpYAML t a b w) as [? ?]
         | |- context [IoutilWriteFile ?a ?b ?c ?w] =>
           destruct (IoutilWriteFile a b c w) as [[?|] ?]
         | |- context [DeployOCSWithOLM ?t ?a ?b ?w] =>
           destruct (DeployOCSWithOLM t a b w) as [[?|] ?]
         | |- context [StartDefaultStorageCluster ?t ?w] =>
           destruct (StartDefaultStorageCluster t w) as [[?|] ?]
         end; simpl.

(** X16. [main] exits with status 1 exactly when the image or the channel flag
    is empty, and then it has done nothing else: the deploy manager is not
    made and the world is as it was. *)
Theorem main_requires_flags (f : Flags) (w : World) :
  ((main f w).1.1 = Exited 1 ↔ ocsRegistryImage f = "" ∨ ocsSubscriptionChannel f = "")
  ∧ (ocsRegistryImage f = "" ∨ ocsSubscriptionChannel f = "" →
     ∃ msg, main f w = (Exited 1, w, [DvFatal msg])).
Proof.
  split.
  - main_cases f; split; auto; try discriminate; intros [?|?]; done.
  - intros Hempty. main_cases f; try (by eexists); by destruct Hempty.
Qed.


(** X18. Without an output path, [main] dumps no YAML and writes no file.  It
    starts the storage cluster only after [DeployOCSWithOLM] returned nil,
    it returns exactly when both returned nil, which is when it logs the
    success line, and it panics with the error of the one that failed. *)
Theorem main_deploys (f : Flags) (w : World) :
  ocsRegistryImage f ≠ "" → ocsSubscriptionChannel f ≠ "" → yamlOutputPath f = "" →
  filter dv_dumps (main f w).2 = []
  ∧ (∀ err, DvStartDefaultStorageCluster err ∈ (main f w).2 →
       DvDeployOCSWithOLM (ocsRegistryImage f) (ocsSubscriptionChannel f) None ∈ (main f w).2)
  ∧ ((main f w).1.1 = Returned ↔ DvPrintf LineSuccessful ∈ (main f w).2)
  ∧ ((main f w).1.1 = Returned ↔
       DvDeployOCSWithOLM (ocsRegistryImage f) (ocsSubscriptionChannel f) None ∈ (main f w).2
       ∧ DvStartDefaultStorageCluster None ∈ (main f w).2)
  ∧ (∀ e, (main f w).1.1 = Panicked e →
       last (main f w).2
         = Some (DvDeployOCSWithOLM (ocsRegistryImage f) (ocsSubscriptionChannel f) (Some e))
       ∨ last (main f w).2 = Some (DvStartDefaultStorageCluster (Some e)))
  ∧ (DvEnableArbiter ∈ (main f w).2 ↔ arbiterEnabled f = true).
Proof.
  intros Hi Hc Hy. main_cases f; try done;
    (split_and!; [done| | | | |]);
    repeat setoid_rewrite elem_of_cons; repeat setoid_rewrite elem_of_nil;
    try (intros; naive_solver).
Qed.

End DeployFacts.

Lemma main_requires_flags_witness :
  ∃ msg, main (FixtureDeploy.flags "quay.io/ocs" "" "") (FixtureDeploy.world [])
         = (Exited 1, FixtureDeploy.world [], [DvFatal msg]).
Proof.
  apply (proj2 (main_requires_flags (FixtureDeploy.flags "quay.io/ocs" "" "")
                  (FixtureDeploy.world []))).
  right. reflexivity.
Defined.


Lemma main_deploys_witness :
  (main (FixtureDeploy.flags "quay.io/ocs" "stable" "") (FixtureDeploy.world ["start"])).1.1
    = Panicked (Foreign "start")
  ∧ filter dv_dumps
      (main (FixtureDeploy.flags "quay.io/ocs" "stable" "") (FixtureDeploy.world ["start"])).2
    = []
  ∧ DvDeployOCSWithOLM "quay.io/ocs" "stable" None
      ∈ (main (FixtureDeploy.flags "quay.io/ocs" "stable" "")
           (FixtureDeploy.world ["start"])).2.
Proof.
  split; [vm_compute; reflexivity|].
  destruct (main_deploys (FixtureDeploy.flags "quay.io/ocs" "stable" "")
              (FixtureDeploy.world ["start"])) as (Hdump & Hstart & _).
  - discriminate.
  - discriminate.
  - reflexivity.
  - split; [exact Hdump|]. apply (Hstart (Some (Foreign "start"))).
    vm_compute. do 5 right. left.
Defined.

(** ** The ceph toolbox *)

Section ToolboxFacts.
Context {World StorageCluster DMeta DSpec DStatus : Type}
  `{Toolbox World StorageCluster DMeta DSpec DStatus}.

Ltac tb_cases sc :=
  unfold ensureToolsDeployment; cbv zeta;
  repeat (simpl; match goal with
         | |- context [ClientGetDeployment ?a ?b ?w] =>
           destruct (ClientGetDeployment a b w) as [[[?|] ?] ?] eqn:?
         | |- context [ClientGetOCSInit ?a ?b ?w] =>
           destruct (ClientGetOCSInit a b w) as [[[?|] []] ?] eqn:?
         | |- context [IsNotFound ?e] => destruct (IsNotFound e) eqn:?
         | |- context [sc_EnableCephTools sc] => destruct (sc_EnableCephTools sc) eqn:?
         | |- context [SetOwnerReference ?a ?b] => destruct (SetOwnerReference a b) eqn:?
         | |- context [DeepEqual ?a ?b] => destruct (DeepEqual a b) eqn:?
         | |- context [ClientCreate ?d ?w] => destruct (ClientCreate d w) as [? ?] eqn:?
         | |- context [ClientUpdate ?d ?w] => destruct (ClientUpdate d w) as [? ?] eqn:?
         | |- context [ClientDelete ?d ?w] => destruct (ClientDelete d w) as [? ?] eqn:?
         end); simpl.

Ltac tb_rewrite :=
  repeat match goal with
         | Hx : IsNotFound _ = _ |- _ => rewrite Hx
         end; simpl; try done.

Ltac tb_rewrite_in Hf :=
  repeat match goal with
         | Hx : IsNotFound ?e = _ |- _ =>
           match type of Hf with context [IsNotFound e] => rewrite Hx in Hf end
         end.

(** X19. [ensureToolsDeployment] reads before it writes, and writes once at
    most.  Its first call reads the deployment; a write is its third and
    last call, after both reads went through, and its error is the result.
    A read that fails with anything but not-found is the last call, and
    its error is the result. *)
Theorem ensureToolsDeployment_reads_first (sc : StorageCluster) (w : World) :
  (∃ err, head (ensureToolsDeployment sc w).2
          = Some (TbGetDeployment rookCephToolDeploymentName (sc_Namespace sc) err))
  ∧ (length (filter tb_writes (ensureToolsDeployment sc w).2) ≤ 1)%nat
  ∧ (∀ ev, ev ∈ (ensureToolsDeployment sc w).2 → tb_writes ev = true →
       ∃ errD errO,
         (ensureToolsDeployment sc w).2
           = [TbGetDeployment rookCephToolDeploymentName (sc_Namespace sc) errD;
              TbGetOCSInit "ocsinit" (sc_Namespace sc) errO; ev]
         ∧ tb_fatal errD = false ∧ tb_fatal errO = false
         ∧ (ensureToolsDeployment sc w).1.1 = tb_err ev)
  ∧ (∀ ev, ev ∈ (ensureToolsDeployment sc w).2 → tb_writes ev = false →
       tb_fatal (tb_err ev) = true →
       last (ensureToolsDeployment sc w).2 = Some ev
       ∧ (ensureToolsDeployment sc w).1.1 = tb_err ev).
Proof.
  tb_cases sc; (split_and!; [by eexists|simpl; lia| |]);
    intros ev Hev Hw;
    repeat (apply elem_of_cons in Hev as [->|Hev]; simpl in *; try done);
    try (by apply elem_of_nil in Hev);
    first [ by eexists _, _; split_and!; [reflexivity|simpl; tb_rewrite..]
          | intros Hf; simpl in Hf; tb_rewrite_in Hf; simpl in Hf; try discriminate;
            by split ].
Qed.

(** X20. What [ensureToolsDeployment] writes, and when.  It creates only when
    the tools are enabled (in the storage cluster or in ocsinit) and the
    deployment was not found: the new deployment with the owner reference
    set.  It updates only when they are enabled, the deployment was found
    and its spec differs from the new one: the update has the new spec and
    keeps the metadata and the status of the deployment that was found.
    It deletes only when they are disabled in both places and the
    deployment was found: the one that was found. *)
Theorem ensureToolsDeployment_writes (sc : StorageCluster) (w : World) :
  let rD := ClientGetDeployment rookCephToolDeploymentName (sc_Namespace sc) w in
  let rO := ClientGetOCSInit "ocsinit" (sc_Namespace sc) rD.2 in
  let desired := NewToolsDeployment sc (toolsTolerations sc) in
  let enabled := sc_EnableCephTools sc || rO.1.2 in
  ∀ ev, ev ∈ (ensureToolsDeployment sc w).2 →
    match ev with
    | TbCreate d _ =>
      enabled = true
      ∧ (∃ e, rD.1.1 = Some e ∧ IsNotFound e = true)
      ∧ SetOwnerReference sc (dep_Meta desired) = inr (dep_Meta d)
      ∧ dep_Spec d = dep_Spec desired ∧ dep_Status d = dep_Status desired
    | TbUpdate d _ =>
      enabled = true
      ∧ rD.1.1 = None
      ∧ DeepEqual (dep_Spec rD.1.2) (dep_Spec desired) = false
      ∧ dep_Meta d = dep_Meta rD.1.2 ∧ dep_Spec d = dep_Spec desired
      ∧ dep_Status d = dep_Status rD.1.2
    | TbDelete d _ =>
      enabled = false ∧ rD.1.1 = None ∧ d = rD.1.2
    | _ => True
    end.
Proof.
  tb_cases sc; intros ev Hev;
    repeat (apply elem_of_cons in Hev as [->|Hev]; simpl in *; try done);
    try (by apply elem_of_nil in Hev);
    split_and!; try done; by eexists.
Qed.

(** X21. When both reads went through and the owner reference can be set,
    [ensureToolsDeployment] writes nothing exactly when there is nothing
    to do: the tools are enabled and the deployment that was found has the
    new spec, or they are disabled and no deployment was found.  It then
    returns nil. *)
Theorem ensureToolsDeployment_settled (sc : StorageCluster) (w : World) :
  let rD := ClientGetDeployment rookCephToolDeploymentName (sc_Namespace sc) w in
  let rO := ClientGetOCSInit "ocsinit" (sc_Namespace sc) rD.2 in
  let desired := NewToolsDeployment sc (toolsTolerations sc) in
  let enabled := sc_EnableCephTools sc || rO.1.2 in
  tb_fatal rD.1.1 = false →
  tb_fatal rO.1.1 = false →
  (enabled = true → ∀ e, SetOwnerReference sc (dep_Meta desired) ≠ inl e) →
  (filter tb_writes (ensureToolsDeployment sc w).2 = [] ↔
     if enabled
     then rD.1.1 = None ∧ DeepEqual (dep_Spec rD.1.2) (dep_Spec desired) = true
     else is_Some rD.1.1)
  ∧ (filter tb_writes (ensureToolsDeployment sc w).2 = [] →
     (ensureToolsDeployment sc w).1 = (None, rO.2)).
Proof.
  tb_cases sc; intros HfD HfO Hown; simpl in *;
    try discriminate; try (by edestruct (Hown eq_refl));
    (split; [split|]); try done;
    try (by intros [? ?]); try (by intros [? [=]]); try (by intros _; eexists).
Qed.

End ToolboxFacts.

Lemma ensureToolsDeployment_reads_first_witness :
  (ensureToolsDeployment (FixtureToolbox.cluster false) FixtureToolbox.stale_api).1.1 = None
  ∧ ∃ errD errO,
      (ensureToolsDeployment (FixtureToolbox.cluster false) FixtureToolbox.stale_api).2
      = [TbGetDeployment rookCephToolDeploymentName "openshift-storage" errD;
         TbGetOCSInit "ocsinit" "openshift-storage" errO;
         TbDelete {| dep_Meta := ["someone"]; dep_Spec := []; dep_Status := 1 |} None].
Proof.
  split; [vm_compute; reflexivity|].
  destruct (ensureToolsDeployment_reads_first (FixtureToolbox.cluster false)
              FixtureToolbox.stale_api) as (_ & _ & Hwrite & _).
  destruct (Hwrite (TbDelete {| dep_Meta := ["someone"]; dep_Spec := []; dep_Status := 1 |}
                      None)) as (errD & errO & Hlog & _).
  - vm_compute. right. right. left.
  - reflexivity.
  - by exists errD, errO.
Defined.

Lemma ensureToolsDeployment_writes_witness :
  (ensureToolsDeployment (FixtureToolbox.cluster true) FixtureToolbox.stale_api).2
  = [TbGetDeployment "rook-ceph-tools" "openshift-storage" None;
     TbGetOCSInit "ocsinit" "openshift-storage" None;
     TbUpdate {| dep_Meta := ["someone"];
                 dep_Spec := toolsTolerations (FixtureToolbox.cluster true);
                 dep_Status := 1 |} None]
  ∧ DeepEqual (World := FixtureToolbox.Api) (StorageCluster := FixtureToolbox.Cluster)
      (DStatus := nat)
      (dep_Spec (ClientGetDeployment "rook-ceph-tools" "openshift-storage"
                   FixtureToolbox.stale_api).1.2)
      (dep_Spec (NewToolsDeployment (FixtureToolbox.cluster true)
                   (toolsTolerations (FixtureToolbox.cluster true)))) = false.
Proof.
  split; [vm_compute; reflexivity|].
  pose proof (ensureToolsDeployment_writes (FixtureToolbox.cluster true)
                FixtureToolbox.stale_api
                (TbUpdate {| dep_Meta := ["someone"];
                             dep_Spec := toolsTolerations (FixtureToolbox.cluster true);
                             dep_Status := 1 |} None)) as Hw.
  simpl in Hw. destruct Hw as (_ & _ & Hne & _); [|exact Hne].
  right. right. left.
Defined.

Lemma ensureToolsDeployment_settled_witness :
  filter tb_writes
    (ensureToolsDeployment (FixtureToolbox.cluster true)
       (ensureToolsDeployment (FixtureToolbox.cluster true) FixtureToolbox.empty_api).1.2).2
  = []
  ∧ (ensureToolsDeployment (FixtureToolbox.cluster true) FixtureToolbox.empty_api).2
    = [TbGetDeployment "rook-ceph-tools" "openshift-storage" (Some FixtureToolbox.notFound);
       TbGetOCSInit "ocsinit" "openshift-storage" (Some FixtureToolbox.notFound);
       TbCreate {| dep_Meta := ["openshift-storage"];
                   dep_Spec := toolsTolerations (FixtureToolbox.cluster true);
                   dep_Status := 0 |} None].
Proof.
  split; [|vm_compute; reflexivity].
  destruct (ensureToolsDeployment_settled (FixtureToolbox.cluster true)
              (ensureToolsDeployment (FixtureToolbox.cluster true)
                 FixtureToolbox.empty_api).1.2) as [Hiff _].
  - vm_compute. reflexivity.
  - vm_compute. reflexivity.
  - intros _ e. discriminate.
  - apply Hiff. vm_compute. split; reflexivity.
Defined.

(** ** The model at work *)
Section Examples.
Import Fixture.

(** The specification's end-to-end example: a pool with mirroring on, in a
    namespace that resolves, with a status that decodes. *)
Example Add_end_to_end :
  let '(r, s) := Add (pool "pool1" "ns1" "u1" true) (store1 [(statusJSON "OK", None)]) in
  r = Done None
  ∧ Store s = {[ "u1" := record "pool1" "ns1" (statusWith "OK") ]}
  ∧ rbdCommandInput s = {[ "ns1" := admin1 ]}
  ∧ trace (env s) =
      [EvSecretsGet "ns1" "rook-ceph-mon"; EvConfigMapsGet "ns1" "rook-ceph-csi-config";
       EvExec "rbd" (rbdArgs admin1 "pool1"); EvLock; EvStoreSet "u1"; EvUnlock].
Proof. vm_compute. done. Qed.

(** [Add] can leave an input cached and still fail: the namespace
    resolves, the command does not run. *)
Example Add_fetch_failure :
  let '(r, s) := Add (pool "pool1" "ns1" "u1" true) (store1 []) in
  r = Done (Some (RbdCommandError (Foreign "exit status 1")))
  ∧ Store s = ∅
  ∧ rbdCommandInput s = {[ "ns1" := admin1 ]}.
Proof. vm_compute. done. Qed.

(** [WithRBDCommandInput] itself does not look in the cache: called for a
    namespace that has an input, it reads the two objects again.  The
    look-up is in its two callers. *)
Example WithRBDCommandInput_reads_again :
  emitted (store3 []) (WithRBDCommandInput "ns1" (store3 [])).2 =
    [EvSecretsGet "ns1" "rook-ceph-mon"; EvConfigMapsGet "ns1" "rook-ceph-csi-config"].
Proof. vm_compute. done. Qed.

(** [Delete] asks for object metadata only: an object that is not a pool
    and carries the UID of one removes the pool's entry. *)
Example Delete_other_object :
  let '(r, s) := Delete (ObjOther {| Name := "pod"; Namespace := "ns1"; GetUID := "u1" |})
                   (store2 []) in
  r = Done None ∧ Store s = {[ "u2" := record "pool2" "ns2" (statusWith "OK") ]}.
Proof. vm_compute. done. Qed.

(** A sweep in the order of [map_to_list]: [pool1] is refreshed, [pool2],
    whose namespace has no secret, keeps its record. *)
Example Resync_sweep :
  let '(r, s) := Resync (store2 [(statusJSON "WARNING", None)]) in
  r = Done None
  ∧ Store s = {[ "u1" := record "pool1" "ns1" (statusWith "WARNING");
                 "u2" := record "pool2" "ns2" (statusWith "OK") ]}
  ∧ trace (env s) =
      [EvInfo LogResyncStarted; EvLock;
       EvSecretsGet "ns1" "rook-ceph-mon"; EvConfigMapsGet "ns1" "rook-ceph-csi-config";
       EvExec "rbd" (rbdArgs admin1 "pool1"); EvStoreSet "u1";
       EvSecretsGet "ns2" "rook-ceph-mon";
       EvError (LogInitFailed "ns2" "pool2"
                  (SecretLookupError "ns2" (Foreign "secrets not found")));
       EvInfo LogResyncEnded; EvUnlock]
  ∧ well_locked false (trace (env s)) = true.
Proof. vm_compute. done. Qed.

(** The bootstrap on an empty disk makes the directory and the two files;
    run again, it finds them and changes nothing. *)
Example writeCephConfig_twice :
  let '(err1, p1) := writeCephConfig (FixtureBoot.proc false []) in
  let '(err2, p2) := writeCephConfig p1 in
  err1 = None ∧ err2 = None
  ∧ FixtureBoot.nodes (proc_world p1)
    = {[ cephConfigRoot := ""; cephConfigPath := cephConfig; keyRing := "" ]}
  ∧ proc_world p2 = proc_world p1
  ∧ fs_emitted p1 p2
    = [FsMkdirAll cephConfigRoot 493 None; FsStat cephConfigPath None; FsStat keyRing None].
Proof. vm_compute. done. Qed.

(** On a read-only disk the constructor panics before it makes a client. *)
Example NewRBDMirrorStore_read_only :
  (NewRBDMirrorStore FixtureBoot.opts1 (FixtureBoot.proc true [])).1 = Panic
  ∧ fslog (NewRBDMirrorStore FixtureBoot.opts1 (FixtureBoot.proc true [])).2
    = [FsMkdirAll cephConfigRoot 493 (Some FixtureBoot.erofs)].
Proof. vm_compute. done. Qed.

(** The toolbox is created, then left alone; when the flag goes off it is
    deleted. *)
Example ensureToolsDeployment_rounds :
  let '(r1, w1, log1) :=
    ensureToolsDeployment (FixtureToolbox.cluster true) FixtureToolbox.empty_api in
  let '(r2, w2, log2) := ensureToolsDeployment (FixtureToolbox.cluster true) w1 in
  let '(r3, w3, log3) := ensureToolsDeployment (FixtureToolbox.cluster false) w2 in
  r1 = None ∧ r2 = None ∧ r3 = None
  ∧ length (filter tb_writes log1) = 1 ∧ filter tb_writes log2 = []
  ∧ w2 = w1 ∧ w3 = FixtureToolbox.empty_api.
Proof. vm_compute. done. Qed.

End Examples.
